(** * node-debugger-mcp: the process registry, the port allocator and the
      debug session of [NodeDebuggerServer] (src/index.ts)

    The server keeps four pieces of mutable state: the map of managed
    processes, the single debug session, the port cursor and the set of used
    ports.  Every tool handler is an [async] method that mutates this state
    and talks to the outside (the operating system, the inspector protocol).

    The embedding is a state monad over the server state and a log of the
    calls made to the outside.  What the outside answers is an argument of
    each operation.  An [await] is a suspension point: the handlers that the
    event loop runs while the operation is suspended (protocol events, exit
    observers) are part of the answer and are applied to the state before
    the operation resumes. *)

From Stdlib Require Import Ascii String.
From stdpp Require Import gmap strings list pretty.

Set Warnings "-clear-no-such-hyp".

Open Scope Z_scope.

(** ** JavaScript [Map]: an insertion-ordered table with unique keys *)

Module JsMap.
Section defs.
Context {K V : Type} `{EqDecision K}.

Definition t := list (K * V).

Fixpoint get (k : K) (m : list (K * V)) : option V :=
  match m with
  | [] => None
  | (k', v) :: m' => if decide (k = k') then Some v else get k m'
  end.

(** [Map.prototype.set]: an existing key keeps its position. *)
Fixpoint set (k : K) (v : V) (m : list (K * V)) : list (K * V) :=
  match m with
  | [] => [(k, v)]
  | (k', v') :: m' =>
      if decide (k = k') then (k, v) :: m' else (k', v') :: set k v m'
  end.

Fixpoint delete (k : K) (m : list (K * V)) : list (K * V) :=
  match m with
  | [] => []
  | (k', v') :: m' =>
      if decide (k = k') then m' else (k', v') :: delete k m'
  end.

Definition keys (m : list (K * V)) : list K := m.*1.
Definition values (m : list (K * V)) : list V := m.*2.

(** The number of entries stored under [k]. *)
Definition occurrences (k : K) (m : list (K * V)) : nat :=
  length (filter (λ k', k' = k) (keys m)).
End defs.
End JsMap.

(** ** Data model *)

(** A tool result: [{ content: [{ type: "text", text }], isError }]. *)
Record Response := { text : string; isError : bool }.

Definition ok_response (t : string) : Response :=
  {| text := t; isError := false |}.
Definition error_response (t : string) : Response :=
  {| text := t; isError := true |}.

(** The protocol client object returned by [CDP({ port })]. *)
Definition ClientId := nat.

(** A call frame of a [Debugger.paused] event. *)
Record CallFrame := {
  callFrameId : string;
  functionName : string;
  url : string;
  lineNumber : Z;
  columnNumber : Z
}.

(** [interface ManagedProcess]; the [process] handle is the child itself,
    identified by its pid. *)
Module ManagedProcess.
Record t := mk {
  pid : Z;
  port : Z;
  command : string;
  args : list string;
  startTime : Z;
  scriptPath : string
}.
End ManagedProcess.

(** [interface DebugSession]; every field but [connected] is optional. *)
Module DebugSession.
Record t := mk {
  connected : bool;
  processId : option Z;
  port : option Z;
  callStack : option (list CallFrame);
  variables : option unit;
  client : option ClientId;
  breakpoints : option (list (string * string));
  isPaused : option bool;
  currentExecutionContext : option Z
}.

Definition with_callStack (v : option (list CallFrame)) (s : t) : t :=
  mk (connected s) (processId s) (port s) v (variables s) (client s)
     (breakpoints s) (isPaused s) (currentExecutionContext s).
Definition with_isPaused (v : option bool) (s : t) : t :=
  mk (connected s) (processId s) (port s) (callStack s) (variables s)
     (client s) (breakpoints s) v (currentExecutionContext s).
Definition with_currentExecutionContext (v : option Z) (s : t) : t :=
  mk (connected s) (processId s) (port s) (callStack s) (variables s)
     (client s) (breakpoints s) (isPaused s) v.
Definition with_breakpoints (v : option (list (string * string))) (s : t) : t :=
  mk (connected s) (processId s) (port s) (callStack s) (variables s)
     (client s) v (isPaused s) (currentExecutionContext s).

(** [{ connected: false, breakpoints: new Map(), isPaused: false }] *)
Definition initial : t :=
  mk false None None None None None (Some []) (Some false) None.

(** [{ connected: false }] *)
Definition disconnected : t :=
  mk false None None None None None None None None.

(** The object assigned by [attachDebugger] once both domains are
    enabled. *)
Definition attached (p : Z) (c : ClientId) : t :=
  mk true None (Some p) (Some []) (Some ()) (Some c) (Some []) (Some false)
     None.
End DebugSession.

(** The fields of [NodeDebuggerServer]. *)
Record Server := {
  managedProcesses : list (Z * ManagedProcess.t);
  debugSession : DebugSession.t;
  nextPort : Z;
  usedPorts : gset Z
}.

Definition with_managedProcesses (m : list (Z * ManagedProcess.t)) (s : Server) : Server :=
  {| managedProcesses := m; debugSession := debugSession s;
     nextPort := nextPort s; usedPorts := usedPorts s |}.
Definition with_debugSession (d : DebugSession.t) (s : Server) : Server :=
  {| managedProcesses := managedProcesses s; debugSession := d;
     nextPort := nextPort s; usedPorts := usedPorts s |}.
Definition with_nextPort (p : Z) (s : Server) : Server :=
  {| managedProcesses := managedProcesses s; debugSession := debugSession s;
     nextPort := p; usedPorts := usedPorts s |}.
Definition with_usedPorts (u : gset Z) (s : Server) : Server :=
  {| managedProcesses := managedProcesses s; debugSession := debugSession s;
     nextPort := nextPort s; usedPorts := u |}.

Definition initial_server : Server :=
  {| managedProcesses := []; debugSession := DebugSession.initial;
     nextPort := 9229; usedPorts := ∅ |}.

(** ** Calls to the outside *)

Inductive CdpRequest :=
  | DebuggerEnable
  | RuntimeEnable
  | DebuggerPause
  | RuntimeRunIfWaitingForDebugger
  | DebuggerSetBreakpointByUrl (lineNumber : Z) (url : string)
      (condition : option string)
  | DebuggerStepOver
  | DebuggerStepInto
  | DebuggerResume
  | DebuggerStepOut
  | DebuggerEvaluateOnCallFrame (callFrameId : string) (expression : string)
  | RuntimeEvaluate (expression : string) (contextId : option Z).

Inductive Effect :=
  | Spawn (nodeArgs : list string) (cwd : string)
  | Kill (pid : Z)
  | Probe (port : Z)
  | Connect (port : Z)
  | Subscribe (c : ClientId)
  | Close (c : ClientId)
  | Call (c : ClientId) (req : CdpRequest)
  | Sleep (ms : Z).

(** ** Handlers run by the event loop *)

Inductive CdpEvent :=
  | DebuggerPaused (callFrames : list CallFrame)
  | DebuggerResumed
  | ExecutionContextCreated (id : Z).

Inductive Interrupt :=
  | Event (e : CdpEvent)
  | ChildExit (pid : Z).

(** The three subscriptions of [attachDebugger]; each reads
    [this.debugSession] when it runs. *)
Definition on_event (e : CdpEvent) (d : DebugSession.t) : DebugSession.t :=
  match e with
  | DebuggerPaused callFrames =>
      DebugSession.with_isPaused (Some true)
        (DebugSession.with_callStack (Some callFrames) d)
  | DebuggerResumed =>
      DebugSession.with_callStack (Some [])
        (DebugSession.with_isPaused (Some false) d)
  | ExecutionContextCreated id =>
      DebugSession.with_currentExecutionContext (Some id) d
  end.

(** [child.on("exit", ...)] of [startNodeProcess], for the child [pid]. *)
Definition on_exit (pid : Z) (s : Server) : Server :=
  if decide (pid = 0) then s
  else
    match JsMap.get pid (managedProcesses s) with
    | Some process =>
        let s1 := with_usedPorts (usedPorts s ∖ {[ManagedProcess.port process]}) s in
        let s2 := with_managedProcesses (JsMap.delete pid (managedProcesses s1)) s1 in
        if decide (DebugSession.port (debugSession s2)
                   = Some (ManagedProcess.port process))
        then with_debugSession DebugSession.disconnected s2
        else s2
    | None => s
    end.

Definition on_interrupt (i : Interrupt) (s : Server) : Server :=
  match i with
  | Event e => with_debugSession (on_event e (debugSession s)) s
  | ChildExit pid => on_exit pid s
  end.

Definition deliver (ints : list Interrupt) (s : Server) : Server :=
  foldl (λ s i, on_interrupt i s) s ints.

(** ** The monad of tool handlers *)

Record World := { server : Server; effects : list Effect }.

Definition initial_world : World :=
  {| server := initial_server; effects := [] |}.

(** A handler returns, throws (the string is what [`${error}`] prints), or
    is still scanning when the fuel of the port scan is spent. *)
Inductive Result (A : Type) :=
  | Ok (a : A)
  | Throw (error : string)
  | Scanning.
Arguments Ok {A} a.
Arguments Throw {A} error.
Arguments Scanning {A}.

Definition M (A : Type) : Type := World → Result A * World.

#[global] Instance M_ret : MRet M := λ A a w, (Ok a, w).
#[global] Instance M_bind : MBind M := λ A B f m w,
  match m w with
  | (Ok a, w') => f a w'
  | (Throw e, w') => (Throw e, w')
  | (Scanning, w') => (Scanning, w')
  end.

Definition throw {A} (error : string) : M A := λ w, (Throw error, w).
Definition scanning {A} : M A := λ w, (Scanning, w).

(** [try { m } catch (error) { handler }]; what [m] did to the state before
    it threw stays done. *)
Definition try_catch {A} (m : M A) (handler : string → M A) : M A := λ w,
  match m w with
  | (Throw e, w') => handler e w'
  | r => r
  end.

Definition get_server : M Server := λ w, (Ok (server w), w).
Definition modify (f : Server → Server) : M unit := λ w,
  (Ok (), {| server := f (server w); effects := effects w |}).
Definition emit (e : Effect) : M unit := λ w,
  (Ok (), {| server := server w; effects := effects w ++ [e] |}).

(** A synchronous call to the outside: it returns or throws. *)
Definition settle {A} (outcome : A + string) : M A :=
  match outcome with
  | inl a => mret a
  | inr e => throw e
  end.

(** What an awaited promise does: the handlers in [during] run while the
    caller is suspended, then the promise resolves or rejects. *)
Record Await (A : Type) := { during : list Interrupt; outcome : A + string }.
Arguments during {A} _.
Arguments outcome {A} _.

Definition resolved {A} (a : A) : Await A := {| during := []; outcome := inl a |}.
Definition rejected {A} (e : string) : Await A := {| during := []; outcome := inr e |}.

Definition await {A} (p : Await A) : M A :=
  modify (deliver (during p));; settle (outcome p).

(** [await new Promise(resolve => setTimeout(resolve, ms))] *)
Definition sleep (ms : Z) (ints : list Interrupt) : M unit :=
  emit (Sleep ms);; modify (deliver ints).

(** ** JavaScript values in texts *)

(** [a || b] on optional strings: the empty string is falsy. *)
Definition truthy (o : option string) : option string :=
  match o with
  | Some "" => None
  | o => o
  end.

Definition or_else (o : option string) (d : string) : string :=
  default d (truthy o).

Definition hex_digit (n : N) : string :=
  String (ascii_of_N (if (n <? 10)%N then 48 + n else 87 + n)) "".

(** [JSON.stringify] of a string. *)
Definition json_escape (c : ascii) : string :=
  let n := N_of_ascii c in
  if (n =? 34)%N then String (ascii_of_N 92) (String c "")
  else if (n =? 92)%N then String c (String c "")
  else if (n =? 8)%N then "\b"
  else if (n =? 9)%N then "\t"
  else if (n =? 10)%N then "\n"
  else if (n =? 12)%N then "\f"
  else if (n =? 13)%N then "\r"
  else if (n <? 32)%N then "\u00" +:+ hex_digit (n / 16) +:+ hex_digit (n mod 16)
  else String c "".

Fixpoint json_escape_all (s : string) : string :=
  match s with
  | EmptyString => ""
  | String c s' => json_escape c +:+ json_escape_all s'
  end.

Definition json_string (s : string) : string :=
  String (ascii_of_N 34) (json_escape_all s) +:+ String (ascii_of_N 34) "".

(** ** Port allocator *)

(** The [while] loop of [findAvailablePort]; the test on [usedPorts] is
    made before the probe is started, and only the probe suspends. *)
Fixpoint findAvailablePort_loop (fuel : nat) (isPortAvailable : Z → Await bool)
    (port : Z) : M Z :=
  match fuel with
  | O => scanning
  | S fuel' =>
      s ← get_server;
      if decide (port ∈ usedPorts s)
      then findAvailablePort_loop fuel' isPortAvailable (port + 1)
      else
        emit (Probe port);;
        free ← await (isPortAvailable port);
        if free : bool then mret port
        else findAvailablePort_loop fuel' isPortAvailable (port + 1)
  end.

Definition findAvailablePort (fuel : nat) (isPortAvailable : Z → Await bool) : M Z :=
  s ← get_server;
  port ← findAvailablePort_loop fuel isPortAvailable (nextPort s);
  modify (with_nextPort (port + 1));;
  mret port.

(** The same method cut at its suspension point, for runs in which two
    calls overlap: a call is at the loop test, suspended in the probe of a
    port, or has returned. *)
Inductive FapTask :=
  | FapTest (port : Z)
  | FapAwait (port : Z)
  | FapReturned (port : Z).

Definition fap_start : M FapTask :=
  s ← get_server; mret (FapTest (nextPort s)).

Definition fap_step (isPortAvailable : Z → Await bool) (t : FapTask) : M FapTask :=
  match t with
  | FapTest port =>
      s ← get_server;
      if decide (port ∈ usedPorts s) then mret (FapTest (port + 1))
      else emit (Probe port);; mret (FapAwait port)
  | FapAwait port =>
      free ← await (isPortAvailable port);
      if free : bool
      then modify (with_nextPort (port + 1));; mret (FapReturned port)
      else mret (FapTest (port + 1))
  | FapReturned port => mret (FapReturned port)
  end.

(** A call running alone: steps until it has returned. *)
Fixpoint fap_run (fuel : nat) (isPortAvailable : Z → Await bool) (t : FapTask) : M Z :=
  match t, fuel with
  | FapReturned port, _ => mret port
  | _, O => scanning
  | _, S fuel' =>
      t' ← fap_step isPortAvailable t; fap_run fuel' isPortAvailable t'
  end.

(** ** Process registry *)

Record StartArgs := {
  script : string;
  args : option (list string);
  cwd : option string
}.

(** What [startNodeProcess] reads from the outside: [process.cwd()],
    [path.resolve], [fs.existsSync], the port probe, what [spawn] does
    (it throws, or gives a child whose pid may be undefined) and the
    clock. *)
Record StartEnv := {
  process_cwd : string;
  resolve : string → string → string;
  existsSync : string → bool;
  isPortAvailable : Z → Await bool;
  spawn : option Z + string;
  now : Z
}.

(** The part of [startNodeProcess] after the port is known. *)
Definition startNodeProcess_spawn (a : StartArgs) (env : StartEnv)
    (scriptPath : string) (port : Z) : M Response :=
  let nodeArgs :=
    ("--inspect-brk=" +:+ pretty port) :: script a :: default [] (args a) in
  try_catch
    (emit (Spawn nodeArgs (or_else (cwd a) (process_cwd env)));;
     child_pid ← settle (spawn env);
     match child_pid with
     | Some pid =>
         if decide (pid = 0) then throw "Error: Failed to start process"
         else
           let managedProcess :=
             ManagedProcess.mk pid port "node" nodeArgs (now env) scriptPath in
           modify (λ s, with_usedPorts ({[port]} ∪ usedPorts s) s);;
           modify (λ s, with_managedProcesses
                          (JsMap.set pid managedProcess (managedProcesses s)) s);;
           mret (ok_response ("Started Node.js process with PID " +:+ pretty pid
                              +:+ " on debug port " +:+ pretty port))
     | None => throw "Error: Failed to start process"
     end)
    (λ error, mret (error_response ("Error starting process: " +:+ error))).

Definition startNodeProcess (fuel : nat) (a : StartArgs) (env : StartEnv) : M Response :=
  let workingDir := or_else (cwd a) (process_cwd env) in
  let scriptPath := resolve env workingDir (script a) in
  if negb (existsSync env scriptPath)
  then mret (error_response ("Script not found: " +:+ scriptPath))
  else
    port ← findAvailablePort fuel (isPortAvailable env);
    startNodeProcess_spawn a env scriptPath port.

Definition killProcess (pid : Z) (kill : unit + string) : M Response :=
  s ← get_server;
  match JsMap.get pid (managedProcesses s) with
  | None =>
      mret (error_response
              ("Process " +:+ pretty pid +:+ " not found in managed processes"))
  | Some managedProcess =>
      try_catch
        (emit (Kill (ManagedProcess.pid managedProcess));;
         settle kill;;
         modify (λ s, with_managedProcesses
                        (JsMap.delete pid (managedProcesses s)) s);;
         mret (ok_response ("Killed process " +:+ pretty pid)))
        (λ error, mret (error_response ("Error killing process: " +:+ error)))
  end.

(** ** Debug session *)

Record AttachEnv := {
  closeReply : Await unit;
  connectReply : Await ClientId;
  debuggerEnableReply : Await unit;
  runtimeEnableReply : Await unit;
  pauseReply : Await unit;
  pauseDelay : list Interrupt;
  runIfWaitingReply : Await unit;
  settleDelay : list Interrupt
}.

Definition attachDebugger (port : Z) (env : AttachEnv) : M Response :=
  try_catch
    (s ← get_server;
     match DebugSession.client (debugSession s) with
     | Some previous => emit (Close previous);; await (closeReply env)
     | None => mret ()
     end;;
     emit (Connect port);;
     client ← await (connectReply env);
     emit (Subscribe client);;
     emit (Call client DebuggerEnable);;
     await (debuggerEnableReply env);;
     emit (Call client RuntimeEnable);;
     await (runtimeEnableReply env);;
     modify (with_debugSession (DebugSession.attached port client));;
     try_catch
       (emit (Call client DebuggerPause);;
        await (pauseReply env);;
        sleep 100 (pauseDelay env))
       (λ _, mret ());;
     try_catch
       (emit (Call client RuntimeRunIfWaitingForDebugger);;
        await (runIfWaitingReply env))
       (λ _, mret ());;
     sleep 200 (settleDelay env);;
     mret (ok_response ("Successfully attached debugger to port " +:+ pretty port)))
    (λ error, mret (error_response ("Error attaching debugger: " +:+ error))).

(** [!this.debugSession.connected || !this.debugSession.client] *)
Definition no_session (d : DebugSession.t) : bool :=
  negb (DebugSession.connected d) || negb (bool_decide (is_Some (DebugSession.client d))).

Definition NoActiveSession : Response :=
  error_response "No active debug session. Please attach debugger first.".

(** The client read by [const { Debugger } = this.debugSession.client]. *)
Definition the_client (d : DebugSession.t) : M ClientId :=
  match DebugSession.client d with
  | Some c => mret c
  | None => throw "TypeError: Cannot destructure property 'Debugger' of 'this.debugSession.client' as it is undefined."
  end.

Definition breakpointKey (file : string) (line : Z) : string :=
  file +:+ ":" +:+ pretty line.

Definition setBreakpoint (file : string) (line : Z) (condition : option string)
    (reply : Await (option string)) : M Response :=
  s ← get_server;
  if no_session (debugSession s) then mret NoActiveSession
  else
    try_catch
      (client ← the_client (debugSession s);
       emit (Call client (DebuggerSetBreakpointByUrl (line - 1) file condition));;
       breakpointId ← await reply;
       match truthy breakpointId with
       | Some id =>
           s' ← get_server;
           match DebugSession.breakpoints (debugSession s') with
           | Some table =>
               modify (with_debugSession
                         (DebugSession.with_breakpoints
                            (Some (JsMap.set (breakpointKey file line) id table))
                            (debugSession s')));;
               mret (ok_response
                       ("Set breakpoint at " +:+ file +:+ ":" +:+ pretty line
                        +:+ match truthy condition with
                            | Some c => " (condition: " +:+ c +:+ ")"
                            | None => ""
                            end
                        +:+ " - ID: " +:+ id))
           | None =>
               throw "TypeError: Cannot read properties of undefined (reading 'set')"
           end
       | None =>
           mret (error_response
                   ("Failed to set breakpoint at " +:+ file +:+ ":" +:+ pretty line))
       end)
      (λ error, mret (error_response ("Error setting breakpoint: " +:+ error))).

Module StepAction.
Inductive t := next | step | continue | out.

Definition to_string (a : t) : string :=
  match a with
  | next => "next"
  | step => "step"
  | continue => "continue"
  | out => "out"
  end.

Definition request (a : t) : CdpRequest :=
  match a with
  | next => DebuggerStepOver
  | step => DebuggerStepInto
  | continue => DebuggerResume
  | out => DebuggerStepOut
  end.
End StepAction.

Definition stepDebug (action : StepAction.t) (reply : Await unit) : M Response :=
  s ← get_server;
  if no_session (debugSession s) then mret NoActiveSession
  else
    try_catch
      (client ← the_client (debugSession s);
       emit (Call client (StepAction.request action));;
       await reply;;
       mret (ok_response
               ("Performed debug action: " +:+ StepAction.to_string action)))
      (λ error, mret (error_response ("Error performing debug action: " +:+ error))).

Definition pauseExecution (reply : Await unit) : M Response :=
  s ← get_server;
  if no_session (debugSession s) then mret NoActiveSession
  else
    try_catch
      (client ← the_client (debugSession s);
       emit (Call client DebuggerPause);;
       await reply;;
       mret (ok_response "Execution paused successfully"))
      (λ error, mret (error_response ("Error pausing execution: " +:+ error))).

(** The answer of an evaluation: [exceptionDetails], when present, holds
    [exception?.description]; [value] is the JSON text of [result.value]
    as [JSON.stringify(value, null, 2)] prints it, absent when the value is
    [undefined]. *)
Record RemoteObject := { value : option string; description : option string }.
Record EvaluateReply := {
  exceptionDetails : option (option string);
  result : RemoteObject
}.

(** The protocol call chosen by [evaluateExpression]. *)
Definition evaluate_request (d : DebugSession.t) (expression : string) : CdpRequest :=
  match DebugSession.isPaused d, DebugSession.callStack d with
  | Some true, Some (currentFrame :: _) =>
      DebuggerEvaluateOnCallFrame (callFrameId currentFrame) expression
  | _, _ => RuntimeEvaluate expression (DebugSession.currentExecutionContext d)
  end.

Definition evaluateExpression (expression : string) (reply : Await EvaluateReply)
    : M Response :=
  s ← get_server;
  if no_session (debugSession s) then mret NoActiveSession
  else
    try_catch
      (client ← the_client (debugSession s);
       emit (Call client (evaluate_request (debugSession s) expression));;
       r ← await reply;
       match exceptionDetails r with
       | Some exception =>
           mret (error_response ("Exception: " +:+ or_else exception "Unknown error"))
       | None =>
           let shown :=
             match value (result r) with
             | Some json => json
             | None => json_string (or_else (description (result r)) "[Object]")
             end in
           mret (ok_response (expression +:+ " = " +:+ shown))
       end)
      (λ error, mret (error_response ("Error evaluating expression: " +:+ error))).

(** [cleanup], run on SIGINT and SIGTERM before the server exits.  Neither
    the close nor the kills are awaited; each is in its own [try]. *)
Fixpoint kill_all (ps : list (Z * ManagedProcess.t)) (kill : Z → unit + string) : M unit :=
  match ps with
  | [] => mret ()
  | (pid, managedProcess) :: ps' =>
      try_catch (emit (Kill (ManagedProcess.pid managedProcess));; settle (kill pid))
                (λ _, mret ());;
      kill_all ps' kill
  end.

Definition cleanup (close : unit + string) (kill : Z → unit + string) : M unit :=
  s ← get_server;
  match DebugSession.client (debugSession s) with
  | Some c => try_catch (emit (Close c);; settle close) (λ _, mret ())
  | None => mret ()
  end;;
  kill_all (managedProcesses s) kill;;
  modify (with_managedProcesses []);;
  modify (with_usedPorts ∅);;
  modify (with_debugSession DebugSession.initial).

(** ** Runs of the server *)

(** What can happen to the server: a tool call with the answers of the
    outside, a handler run by the event loop between two calls, or the
    shutdown. *)
Inductive Action :=
  | start_node_process (fuel : nat) (a : StartArgs) (env : StartEnv)
  | kill_process (pid : Z) (kill : unit + string)
  | attach_debugger (port : Z) (env : AttachEnv)
  | set_breakpoint (file : string) (line : Z) (condition : option string)
      (reply : Await (option string))
  | step_debug (action : StepAction.t) (reply : Await unit)
  | pause_execution (reply : Await unit)
  | evaluate_expression (expression : string) (reply : Await EvaluateReply)
  | interrupt (i : Interrupt)
  | shutdown (close : unit + string) (kill : Z → unit + string).

Definition perform (a : Action) (w : World) : World :=
  match a with
  | start_node_process fuel a env => (startNodeProcess fuel a env w).2
  | kill_process pid kill => (killProcess pid kill w).2
  | attach_debugger port env => (attachDebugger port env w).2
  | set_breakpoint file line condition reply =>
      (setBreakpoint file line condition reply w).2
  | step_debug action reply => (stepDebug action reply w).2
  | pause_execution reply => (pauseExecution reply w).2
  | evaluate_expression expression reply =>
      (evaluateExpression expression reply w).2
  | interrupt i => (modify (on_interrupt i) w).2
  | shutdown close kill => (cleanup close kill w).2
  end.

Definition run (actions : list Action) (w : World) : World :=
  foldl (λ w a, perform a w) w actions.

(** The interrupts an action lets in all satisfy [P]. *)
Definition lets_in (P : Interrupt → Prop) (a : Action) : Prop :=
  match a with
  | start_node_process _ _ env =>
      ∀ port, Forall P (during (isPortAvailable env port))
  | kill_process _ _ => True
  | attach_debugger _ env =>
      Forall P (during (closeReply env)) ∧
      Forall P (during (connectReply env)) ∧
      Forall P (during (debuggerEnableReply env)) ∧
      Forall P (during (runtimeEnableReply env)) ∧
      Forall P (during (pauseReply env)) ∧
      Forall P (pauseDelay env) ∧
      Forall P (during (runIfWaitingReply env)) ∧
      Forall P (settleDelay env)
  | set_breakpoint _ _ _ reply => Forall P (during reply)
  | step_debug _ reply => Forall P (during reply)
  | pause_execution reply => Forall P (during reply)
  | evaluate_expression _ reply => Forall P (during reply)
  | interrupt i => P i
  | shutdown _ _ => True
  end.

(** The states the server can be in: those a run from the initial state
    ends in. *)
Definition reachable (w : World) : Prop :=
  ∃ actions, w = run actions initial_world.

(** ** Overlapping launches *)

(** [startNodeProcess] cut at the suspension point of its port scan. *)
Inductive StartTask :=
  | StartScan (scriptPath : string) (t : FapTask)
  | StartDone (r : Response).

Definition start_begin (a : StartArgs) (env : StartEnv) : M StartTask :=
  let workingDir := or_else (cwd a) (process_cwd env) in
  let scriptPath := resolve env workingDir (script a) in
  if negb (existsSync env scriptPath)
  then mret (StartDone (error_response ("Script not found: " +:+ scriptPath)))
  else t ← fap_start; mret (StartScan scriptPath t).

Definition start_step (a : StartArgs) (env : StartEnv) (t : StartTask) : M StartTask :=
  match t with
  | StartScan scriptPath (FapReturned port) =>
      r ← startNodeProcess_spawn a env scriptPath port; mret (StartDone r)
  | StartScan scriptPath t =>
      t' ← fap_step (isPortAvailable env) t; mret (StartScan scriptPath t')
  | StartDone r => mret (StartDone r)
  end.

(** Runs a task until it is suspended in a probe or done. *)
Fixpoint start_until_suspended (fuel : nat) (a : StartArgs) (env : StartEnv)
    (t : StartTask) : M StartTask :=
  match t, fuel with
  | StartScan _ (FapAwait _), _ => mret t
  | StartDone _, _ => mret t
  | _, O => scanning
  | _, S fuel' =>
      t' ← start_step a env t; start_until_suspended fuel' a env t'
  end.

(** A call that starts and runs up to its first suspension. *)
Definition start_call (fuel : nat) (a : StartArgs) (env : StartEnv) : M StartTask :=
  t ← start_begin a env; start_until_suspended fuel a env t.

(** A suspended call whose probe has settled: it resumes and runs up to
    its next suspension. *)
Definition start_resume (fuel : nat) (a : StartArgs) (env : StartEnv)
    (t : StartTask) : M StartTask :=
  t' ← start_step a env t; start_until_suspended fuel a env t'.

(** A call running alone: steps until it is done. *)
Fixpoint start_alone (fuel : nat) (a : StartArgs) (env : StartEnv)
    (t : StartTask) : M Response :=
  match t, fuel with
  | StartDone r, _ => mret r
  | _, O => scanning
  | _, S fuel' => t' ← start_step a env t; start_alone fuel' a env t'
  end.

(** ** Vocabulary of the properties *)

(** The session is paused exactly when it holds at least one call frame. *)
Definition paused_iff_frames (d : DebugSession.t) : Prop :=
  DebugSession.isPaused d = Some true ↔
  ∃ frame frames, DebugSession.callStack d = Some (frame :: frames).

(** A pause event comes with at least one frame. *)
Definition carries_frames (i : Interrupt) : Prop :=
  match i with
  | Event (DebuggerPaused callFrames) => callFrames ≠ []
  | _ => True
  end.

Definition any_interrupt (i : Interrupt) : Prop := True.

(** What the pause and resume events of a list leave behind: the frames of
    the last pause event, unless a resume event follows it. *)
Definition pause_state_from (st : option (list CallFrame)) (evs : list CdpEvent)
    : option (list CallFrame) :=
  foldl (λ st e,
           match e with
           | DebuggerPaused callFrames => Some callFrames
           | DebuggerResumed => None
           | ExecutionContextCreated _ => st
           end) st evs.

Definition pause_state (evs : list CdpEvent) : option (list CallFrame) :=
  pause_state_from None evs.

(** The context of the last context-creation event of a list, [ctx] when
    there is none. *)
Definition last_context (ctx : option Z) (evs : list CdpEvent) : option Z :=
  foldl (λ ctx e,
           match e with
           | ExecutionContextCreated id => Some id
           | _ => ctx
           end) ctx evs.

(** The handlers that [attachDebugger] lets in after it has assigned the
    session object; the first delay is skipped when the pause request
    fails. *)
Definition handshake_interrupts (env : AttachEnv) : list Interrupt :=
  during (pauseReply env)
  ++ match outcome (pauseReply env) with
     | inl _ => pauseDelay env
     | inr _ => []
     end
  ++ during (runIfWaitingReply env)
  ++ settleDelay env.

(** A handler keeps the property [I] of the session object. *)
Definition preserves (I : DebugSession.t → Prop) {A} (m : M A) : Prop :=
  ∀ w, I (debugSession (server w)) → I (debugSession (server (m w).2)).

(** Every breakpoint key is stored once. *)
Definition unique_keys (d : DebugSession.t) : Prop :=
  ∀ table, DebugSession.breakpoints d = Some table → NoDup (JsMap.keys table).

(** The protocol handlers run on a list of events. *)
Definition on_events (evs : list CdpEvent) (d : DebugSession.t) : DebugSession.t :=
  foldl (λ d e, on_event e d) d evs.

Definition paused_flag (st : option (list CallFrame)) : bool :=
  match st with
  | Some _ => true
  | None => false
  end.

Definition frames_of (st : option (list CallFrame)) : list CallFrame :=
  default [] st.

(** The table of a session object that was just created is empty or
    absent. *)
Definition fresh_table (d : DebugSession.t) : Prop :=
  DebugSession.breakpoints d = Some [] ∨ DebugSession.breakpoints d = None.

(** ** Sample answers of the outside *)

(** An attach in which every request succeeds, the client is [c], and the
    handlers in [post] run during the last delay. *)
Definition attach_env (c : ClientId) (post : list Interrupt) : AttachEnv :=
  {| closeReply := resolved ();
     connectReply := resolved c;
     debuggerEnableReply := resolved ();
     runtimeEnableReply := resolved ();
     pauseReply := resolved ();
     pauseDelay := [];
     runIfWaitingReply := resolved ();
     settleDelay := post |}.

(** The same attach, but closing the previous client fails. *)
Definition attach_env_close_fails (c : ClientId) (error : string) : AttachEnv :=
  {| closeReply := rejected error;
     connectReply := resolved c;
     debuggerEnableReply := resolved ();
     runtimeEnableReply := resolved ();
     pauseReply := resolved ();
     pauseDelay := [];
     runIfWaitingReply := resolved ();
     settleDelay := [] |}.

(** An attach in which the runtime reports its context while
    [Runtime.enable] is awaited, as it does for the contexts that already
    exist. *)
Definition attach_env_context_on_enable (c : ClientId) (id : Z) : AttachEnv :=
  {| closeReply := resolved ();
     connectReply := resolved c;
     debuggerEnableReply := resolved ();
     runtimeEnableReply :=
       {| during := [Event (ExecutionContextCreated id)]; outcome := inl () |};
     pauseReply := resolved ();
     pauseDelay := [];
     runIfWaitingReply := resolved ();
     settleDelay := [] |}.

(** A launch in which the script exists or not, every probed port is free,
    and the child gets the pid [child]. *)
Definition start_env (script_exists : bool) (child : Z) : StartEnv :=
  {| process_cwd := "/tmp";
     resolve := λ dir path, dir +:+ "/" +:+ path;
     existsSync := λ _, script_exists;
     isPortAvailable := λ _, resolved true;
     spawn := inl (Some child);
     now := 0 |}.

Definition start_args (path : string) : StartArgs :=
  {| script := path; args := None; cwd := None |}.

Definition sample_frame : CallFrame :=
  {| callFrameId := "frame-0"; functionName := "test";
     url := "file:///tmp/a.js"; lineNumber := 4; columnNumber := 2 |}.

(** The world after [/tmp/a.js] was launched as pid 4242. *)
Definition launched_world : World :=
  (startNodeProcess 1 (start_args "a.js") (start_env true 4242) initial_world).2.

(** ... and after the debugger was attached to its port as client 1. *)
Definition attached_world : World :=
  (attachDebugger 9229 (attach_env 1%nat []) launched_world).2.

(** ... and after a breakpoint was set on line 5. *)
Definition breakpoint_world : World :=
  (setBreakpoint "file:///tmp/a.js" 5 None (resolved (Some "1:0")) attached_world).2.

(** A launch and an attach during which the protocol reports the pause on
    the first line before the last delay is over. *)
Definition paused_on_entry_run : list Action :=
  [start_node_process 1 (start_args "a.js") (start_env true 4242);
   attach_debugger 9229
     (attach_env 1%nat [Event (DebuggerPaused [sample_frame])])].

(** The world after the same breakpoint was set a second time. *)
Definition rebreakpoint_world : World :=
  (setBreakpoint "file:///tmp/a.js" 5 None (resolved (Some "2:0")) breakpoint_world).2.

(** The world after pid 4242 was killed with [kill_process], and after its
    exit observer ran. *)
Definition killed_world : World :=
  (killProcess 4242 (inl ()) launched_world).2.

Definition killed_and_exited_world : World :=
  perform (interrupt (ChildExit 4242)) killed_world.

(** The world after pid 4242 exited by itself. *)
Definition exited_world : World :=
  perform (interrupt (ChildExit 4242)) launched_world.

(** Two launches that overlap: the second call arrives while the first is
    suspended in its probe of port 9229; then the probe of the first
    settles and the first call runs to its end.  The result is the second
    call, still suspended. *)
Definition overlapping_launches : M StartTask :=
  first ← start_call 1 (start_args "a.js") (start_env true 4242);
  second ← start_call 1 (start_args "b.js") (start_env true 4243);
  start_resume 1 (start_args "a.js") (start_env true 4242) first;;
  mret second.

Definition first_launched_world : World := (overlapping_launches initial_world).2.

(** ... and then the probe of the second call settles. *)
Definition both_launched_world : World :=
  (start_resume 1 (start_args "b.js") (start_env true 4243)
     (StartScan "/tmp/b.js" (FapAwait 9229)) first_launched_world).2.

(** ** Vocabulary of the registry properties *)

(** A handler keeps the property [J] of the server state. *)
Definition keeps (J : Server → Prop) {A} (m : M A) : Prop :=
  ∀ w, J (server w) → J (server (m w).2).

Definition ports_of (m : list (Z * ManagedProcess.t)) : list Z :=
  ManagedProcess.port <$> JsMap.values m.

(** An entry is stored under the pid of its process, which is not zero,
    and its port is reserved: in the used ports and before the cursor. *)
Definition entry_ok (s : Server) (e : Z * ManagedProcess.t) : Prop :=
  ManagedProcess.pid e.2 = e.1 ∧ e.1 ≠ 0 ∧
  ManagedProcess.port e.2 ∈ usedPorts s ∧
  ManagedProcess.port e.2 < nextPort s.

(** The registry holds each pid once, no two processes share a port, and
    every entry is in order. *)
Definition registry_ok (s : Server) : Prop :=
  NoDup (JsMap.keys (managedProcesses s)) ∧
  NoDup (ports_of (managedProcesses s)) ∧
  Forall (entry_ok s) (managedProcesses s).

(** The state [cleanup] leaves: everything is reset but the port cursor. *)
Definition cleared (s : Server) : Server :=
  {| managedProcesses := []; debugSession := DebugSession.initial;
     nextPort := nextPort s; usedPorts := ∅ |}.

(** The state after a launch registered the child [pid] on [port]. *)
Definition registered (a : StartArgs) (env : StartEnv) (pid port : Z)
    (s : Server) : Server :=
  {| managedProcesses :=
       JsMap.set pid
         (ManagedProcess.mk pid port "node"
            (("--inspect-brk=" +:+ pretty port) :: script a :: default [] (args a))
            (now env)
            (resolve env (or_else (cwd a) (process_cwd env)) (script a)))
         (managedProcesses s);
     debugSession := debugSession s;
     nextPort := port + 1;
     usedPorts := {[port]} ∪ usedPorts s |}.

(** Whenever the session says it is connected, it has a client, a port, a
    breakpoint table, a call stack and a pause flag; and it has a client
    only when it is connected. *)
Definition session_complete (d : DebugSession.t) : Prop :=
  (DebugSession.connected d = true ↔ is_Some (DebugSession.client d)) ∧
  (DebugSession.connected d = true →
   is_Some (DebugSession.port d) ∧ is_Some (DebugSession.breakpoints d) ∧
   is_Some (DebugSession.callStack d) ∧ is_Some (DebugSession.isPaused d)).

(** ** More sample answers of the outside *)

(** A probe that finds the port [busy] taken and every other port free. *)
Definition probe_with_busy (busy : Z) : Z → Await bool :=
  λ p, resolved (negb (bool_decide (p = busy))).

(** A probe that is rejected, as it is for a port past 65535. *)
Definition probe_rejected (error : string) : Z → Await bool :=
  λ _, rejected error.

(** A launch in which every probe is rejected. *)
Definition start_env_probe_rejected (error : string) : StartEnv :=
  {| process_cwd := "/tmp";
     resolve := λ dir path, dir +:+ "/" +:+ path;
     existsSync := λ _, true;
     isPortAvailable := probe_rejected error;
     spawn := inl (Some 4242);
     now := 0 |}.

(** A launch in which the child has no pid. *)
Definition start_env_no_pid : StartEnv :=
  {| process_cwd := "/tmp";
     resolve := λ dir path, dir +:+ "/" +:+ path;
     existsSync := λ _, true;
     isPortAvailable := λ _, resolved true;
     spawn := inl None;
     now := 0 |}.

(** An attach in which the connection is refused. *)
Definition attach_env_refused (error : string) : AttachEnv :=
  {| closeReply := resolved ();
     connectReply := rejected error;
     debuggerEnableReply := resolved ();
     runtimeEnableReply := resolved ();
     pauseReply := resolved ();
     pauseDelay := [];
     runIfWaitingReply := resolved ();
     settleDelay := [] |}.

(** An attach in which both best-effort requests fail. *)
Definition attach_env_best_effort_fails (c : ClientId) : AttachEnv :=
  {| closeReply := resolved ();
     connectReply := resolved c;
     debuggerEnableReply := resolved ();
     runtimeEnableReply := resolved ();
     pauseReply := rejected "Error: already paused";
     pauseDelay := [];
     runIfWaitingReply := rejected "Error: not waiting";
     settleDelay := [] |}.

(** An interrupt that is a protocol event. *)
Definition is_event (i : Interrupt) : Prop :=
  match i with
  | Event _ => True
  | ChildExit _ => False
  end.

(** The steps of [attachDebugger] that must succeed: the close of the
    previous client when there is one, the connection, and the two
    enables. *)
Definition attach_required_ok (d : DebugSession.t) (env : AttachEnv) : Prop :=
  (DebugSession.client d = None ∨ outcome (closeReply env) = inl ()) ∧
  (∃ c, outcome (connectReply env) = inl c) ∧
  outcome (debuggerEnableReply env) = inl () ∧
  outcome (runtimeEnableReply env) = inl ().

(** The outside calls of a successful [attachDebugger], in order. *)
Definition handshake_calls (previous : option ClientId) (port : Z) (c : ClientId)
    (env : AttachEnv) : list Effect :=
  match previous with
  | Some old => [Close old]
  | None => []
  end
  ++ [Connect port; Subscribe c; Call c DebuggerEnable; Call c RuntimeEnable;
      Call c DebuggerPause]
  ++ match outcome (pauseReply env) with
     | inl _ => [Sleep 100]
     | inr _ => []
     end
  ++ [Call c RuntimeRunIfWaitingForDebugger; Sleep 200].

(** Whether a character occurs in a string. *)
Fixpoint occurs (c : ascii) (s : string) : bool :=
  match s with
  | EmptyString => false
  | String c' s' => if decide (c = c') then true else occurs c s'
  end.

(** ** Vocabulary of the session's execution context *)





(** * Properties *)

(** ** The table *)

Module JsMapFacts.
Section facts.
Context {K V : Type} `{EqDecision K}.
Implicit Types (k : K) (v : V) (m : list (K * V)).

Lemma get_set_eq k v m : JsMap.get k (JsMap.set k v m) = Some v.
Proof.
  induction m as [|[k' v'] m IH]; simpl.
  - by rewrite decide_True.
  - destruct (decide (k = k')) as [->|Hne]; simpl.
    + by rewrite decide_True.
    + by rewrite decide_False.
Qed.

Lemma get_set_ne k k' v m :
  k ≠ k' → JsMap.get k' (JsMap.set k v m) = JsMap.get k' m.
Proof.
  intros Hne. induction m as [|[k1 v1] m IH]; simpl.
  - rewrite decide_False; [done | congruence].
  - destruct (decide (k = k1)) as [->|Hne1]; simpl.
    + rewrite !decide_False; [done | congruence | congruence].
    + by rewrite IH.
Qed.

Lemma keys_set_in k v m :
  ∀ k', k' ∈ JsMap.keys (JsMap.set k v m) ↔ k' = k ∨ k' ∈ JsMap.keys m.
Proof.
  unfold JsMap.keys. induction m as [|[k1 v1] m IH]; intros k'; simpl.
  - rewrite list_elem_of_singleton, elem_of_nil. naive_solver.
  - destruct (decide (k = k1)) as [->|Hne]; simpl.
    + rewrite !elem_of_cons. naive_solver.
    + rewrite !elem_of_cons, IH. naive_solver.
Qed.

Lemma keys_set_NoDup k v m :
  NoDup (JsMap.keys m) → NoDup (JsMap.keys (JsMap.set k v m)).
Proof.
  induction m as [|[k1 v1] m IH]; simpl.
  - intros _. unfold JsMap.keys. simpl. apply NoDup_singleton.
  - unfold JsMap.keys in *. simpl. rewrite NoDup_cons. intros [Hnin Hnd].
    destruct (decide (k = k1)) as [->|Hne]; simpl.
    + by apply NoDup_cons.
    + apply NoDup_cons. split; [|by apply IH].
      intros Hin. apply (keys_set_in k v m) in Hin as [?|?]; [congruence|done].
Qed.

Lemma occurrences_absent k m :
  k ∉ JsMap.keys m → JsMap.occurrences k m = 0%nat.
Proof.
  unfold JsMap.occurrences, JsMap.keys.
  induction m as [|[k1 v1] m IH]; simpl; [done|].
  rewrite not_elem_of_cons. intros [Hne Hnin].
  rewrite filter_cons_False by congruence. by apply IH.
Qed.

(** After [set], the key is stored exactly once. *)
Lemma occurrences_set k v m :
  NoDup (JsMap.keys m) → JsMap.occurrences k (JsMap.set k v m) = 1%nat.
Proof.
  induction m as [|[k1 v1] m IH]; simpl.
  - intros _. unfold JsMap.occurrences, JsMap.keys. simpl.
    by rewrite filter_cons_True.
  - unfold JsMap.keys in *. simpl. rewrite NoDup_cons. intros [Hnin Hnd].
    destruct (decide (k = k1)) as [->|Hne].
    + unfold JsMap.occurrences, JsMap.keys. simpl.
      rewrite filter_cons_True by done. simpl. f_equal.
      by apply occurrences_absent.
    + unfold JsMap.occurrences, JsMap.keys in *. simpl.
      rewrite filter_cons_False by congruence. by apply IH.
Qed.

Lemma keys_delete_in k m :
  ∀ k', k' ∈ JsMap.keys (JsMap.delete k m) → k' ∈ JsMap.keys m.
Proof.
  unfold JsMap.keys. induction m as [|[k1 v1] m IH]; intros k'; simpl; [done|].
  destruct (decide (k = k1)); simpl; set_solver.
Qed.

Lemma keys_delete_NoDup k m :
  NoDup (JsMap.keys m) → NoDup (JsMap.keys (JsMap.delete k m)).
Proof.
  induction m as [|[k1 v1] m IH]; simpl; [done|].
  unfold JsMap.keys in *. simpl. rewrite NoDup_cons. intros [Hnin Hnd].
  destruct (decide (k = k1)); simpl; [done|].
  apply NoDup_cons. split; [|by apply IH].
  intros Hin. by apply keys_delete_in in Hin.
Qed.

Lemma get_None k m : JsMap.get k m = None ↔ k ∉ JsMap.keys m.
Proof.
  unfold JsMap.keys. induction m as [|[k1 v1] m IH]; simpl.
  - split; [intros _; apply not_elem_of_nil | done].
  - rewrite not_elem_of_cons.
    destruct (decide (k = k1)) as [->|Hne]; [naive_solver|].
    rewrite IH. naive_solver.
Qed.

Lemma get_delete_eq k m :
  NoDup (JsMap.keys m) → JsMap.get k (JsMap.delete k m) = None.
Proof.
  induction m as [|[k1 v1] m IH]; simpl; [done|].
  unfold JsMap.keys in *. simpl. rewrite NoDup_cons. intros [Hnin Hnd].
  destruct (decide (k = k1)) as [->|Hne]; simpl.
  - by apply get_None.
  - rewrite decide_False by done. by apply IH.
Qed.

Lemma get_delete_ne k k' m :
  k ≠ k' → JsMap.get k' (JsMap.delete k m) = JsMap.get k' m.
Proof.
  intros Hne. induction m as [|[k1 v1] m IH]; simpl; [done|].
  destruct (decide (k = k1)) as [->|Hne1]; simpl.
  - rewrite decide_False; [done | congruence].
  - by rewrite IH.
Qed.

(** [delete] of a stored key removes one entry. *)
Lemma length_delete k v m :
  JsMap.get k m = Some v → S (length (JsMap.delete k m)) = length m.
Proof.
  induction m as [|[k1 v1] m IH]; simpl; [done|].
  destruct (decide (k = k1)); simpl; [done|].
  intros Hget. f_equal. by apply IH.
Qed.

Lemma delete_absent k m : JsMap.get k m = None → JsMap.delete k m = m.
Proof.
  induction m as [|[k1 v1] m IH]; simpl; [done|].
  destruct (decide (k = k1)); [done|]. intros Hget. f_equal. by apply IH.
Qed.
End facts.
End JsMapFacts.

(** ** Unfolding the monad *)

Ltac run_monad :=
  repeat (unfold mbind, M_bind, mret, M_ret, throw, scanning, try_catch,
            get_server, modify, emit, settle, await, sleep, the_client in *;
          simpl in *).

Lemma no_session_spec (d : DebugSession.t) :
  no_session d = true ↔
  DebugSession.connected d = false ∨ DebugSession.client d = None.
Proof.
  unfold no_session. destruct d as [c ? ? ? ? cl ? ? ?]; simpl.
  destruct c, cl; simpl; naive_solver.
Qed.

(** ** Operations on a detached session *)

(** C4. While the session is detached ([connected] is false or there is no
    client handle), [set_breakpoint], [step_debug], [pause_execution] and
    [evaluate_expression] each return the "No active debug session" error,
    and neither the server state nor the log of outside calls changes. *)
Theorem detached_operations_rejected
    (w : World) (file : string) (line : Z) (condition : option string)
    (breakpointReply : Await (option string)) (action : StepAction.t)
    (stepReply pauseReply : Await unit) (expression : string)
    (evaluateReply : Await EvaluateReply) :
  DebugSession.connected (debugSession (server w)) = false ∨
  DebugSession.client (debugSession (server w)) = None →
  setBreakpoint file line condition breakpointReply w = (Ok NoActiveSession, w) ∧
  stepDebug action stepReply w = (Ok NoActiveSession, w) ∧
  pauseExecution pauseReply w = (Ok NoActiveSession, w) ∧
  evaluateExpression expression evaluateReply w = (Ok NoActiveSession, w).
Proof.
  intros Hdetached. apply no_session_spec in Hdetached.
  unfold setBreakpoint, stepDebug, pauseExecution, evaluateExpression.
  run_monad. rewrite Hdetached. done.
Qed.

Lemma detached_operations_rejected_witness :
  setBreakpoint "file:///tmp/a.js" 5 None (resolved (Some "1:0")) initial_world
    = (Ok NoActiveSession, initial_world) ∧
  stepDebug StepAction.continue (resolved ()) initial_world
    = (Ok NoActiveSession, initial_world) ∧
  pauseExecution (resolved ()) initial_world = (Ok NoActiveSession, initial_world) ∧
  evaluateExpression "1 + 2"
    (resolved {| exceptionDetails := None;
                 result := {| value := Some "3"; description := None |} |})
    initial_world = (Ok NoActiveSession, initial_world).
Proof.
  apply detached_operations_rejected. left. reflexivity.
Defined.

(** ** Launching a script that does not exist *)

(** C10. When the script path, resolved against the given working directory
    (or the current one when none or an empty one is given), does not exist,
    [start_node_process] answers "Script not found" as an error and the
    world is left as it was: no probe and no spawn is logged, the port
    cursor, the used ports and the registry are unchanged. *)
Theorem missing_script_rejected
    (fuel : nat) (a : StartArgs) (env : StartEnv) (w : World) :
  existsSync env (resolve env (or_else (cwd a) (process_cwd env)) (script a)) = false →
  startNodeProcess fuel a env w =
    (Ok (error_response
           ("Script not found: "
            +:+ resolve env (or_else (cwd a) (process_cwd env)) (script a))),
     w).
Proof.
  intros Hmissing. unfold startNodeProcess. rewrite Hmissing. reflexivity.
Qed.

Lemma missing_script_rejected_witness :
  startNodeProcess 1 (start_args "missing.js") (start_env false 4242) initial_world =
    (Ok (error_response "Script not found: /tmp/missing.js"), initial_world).
Proof.
  apply (missing_script_rejected 1 (start_args "missing.js") (start_env false 4242)
           initial_world).
  reflexivity.
Defined.

(** ** Shutdown *)

Lemma kill_all_server ps kill w :
  ∃ log, kill_all ps kill w = (Ok (), {| server := server w; effects := log |}).
Proof.
  revert w. induction ps as [|[pid mp] ps IH]; intros w; simpl.
  - exists (effects w). by destruct w.
  - run_monad. destruct (kill pid) as [[]|e]; simpl;
      match goal with
      | |- ∃ log, kill_all _ _ ?w' = _ =>
          destruct (IH w') as [log Hlog]; exists log; exact Hlog
      end.
Qed.

Lemma cleanup_server close kill w :
  server (cleanup close kill w).2 =
    {| managedProcesses := []; debugSession := DebugSession.initial;
       nextPort := nextPort (server w); usedPorts := ∅ |}.
Proof.
  unfold cleanup. run_monad.
  destruct (DebugSession.client (debugSession (server w))) as [c|]; simpl.
  - destruct close as [[]|e]; simpl;
      match goal with
      | |- context [kill_all ?ps ?k ?w'] =>
          destruct (kill_all_server ps k w') as [log ->]
      end; done.
  - destruct (kill_all_server (managedProcesses (server w)) kill w) as [log ->].
    done.
Qed.

Lemma cleanup_session close kill w :
  debugSession (server (cleanup close kill w).2) = DebugSession.initial.
Proof. by rewrite cleanup_server. Qed.

(** ** Invariants of the session along a run *)

Section session_invariant.
(** A property [I] of the session object and a condition [P] on the
    interrupts that may run. *)
Context (I : DebugSession.t → Prop) (P : Interrupt → Prop).
Hypothesis I_initial : I DebugSession.initial.
Hypothesis I_disconnected : I DebugSession.disconnected.
Hypothesis I_attached : ∀ p c, I (DebugSession.attached p c).
Hypothesis I_event : ∀ e d, P (Event e) → I d → I (on_event e d).
Hypothesis I_set : ∀ d table k v,
  I d → DebugSession.breakpoints d = Some table →
  I (DebugSession.with_breakpoints (Some (JsMap.set k v table)) d).

Lemma preserves_ret {A} (a : A) : preserves I (mret a).
Proof. intros w Hw. exact Hw. Qed.

Lemma preserves_throw {A} e : preserves I (@throw A e).
Proof. intros w Hw. exact Hw. Qed.

Lemma preserves_scanning {A} : preserves I (@scanning A).
Proof. intros w Hw. exact Hw. Qed.

Lemma preserves_emit e : preserves I (emit e).
Proof. intros w Hw. exact Hw. Qed.

Lemma preserves_settle {A} (o : A + string) : preserves I (settle o).
Proof. destruct o; intros w Hw; exact Hw. Qed.

Lemma preserves_bind {A B} (m : M A) (f : A → M B) :
  preserves I m → (∀ a, preserves I (f a)) → preserves I (m ≫= f).
Proof.
  intros Hm Hf w Hw. specialize (Hm w Hw).
  unfold mbind, M_bind. destruct (m w) as [[a|e|] w1]; simpl in *.
  - by apply Hf.
  - done.
  - done.
Qed.

Lemma preserves_get {A} (k : Server → M A) :
  (∀ w, I (debugSession (server w)) →
        I (debugSession (server (k (server w) w).2))) →
  preserves I (get_server ≫= k).
Proof. intros Hk w Hw. by apply Hk. Qed.

Lemma preserves_try_catch {A} (m : M A) (h : string → M A) :
  preserves I m → (∀ e, preserves I (h e)) → preserves I (try_catch m h).
Proof.
  intros Hm Hh w Hw. specialize (Hm w Hw).
  unfold try_catch. destruct (m w) as [[a|e|] w1]; simpl in *.
  - done.
  - by apply Hh.
  - done.
Qed.

Lemma preserves_modify (f : Server → Server) :
  (∀ s, I (debugSession s) → I (debugSession (f s))) → preserves I (modify f).
Proof. intros Hf w Hw. by apply Hf. Qed.

Lemma on_exit_session pid s :
  debugSession (on_exit pid s) = debugSession s ∨
  debugSession (on_exit pid s) = DebugSession.disconnected.
Proof.
  unfold on_exit. destruct (decide (pid = 0)); [by left|].
  destruct (JsMap.get pid (managedProcesses s)); [|by left].
  case_decide; [by right | by left].
Qed.

Lemma on_interrupt_invariant i s :
  P i → I (debugSession s) → I (debugSession (on_interrupt i s)).
Proof.
  intros HP Hs. destruct i as [e|pid]; simpl.
  - by apply I_event.
  - destruct (on_exit_session pid s) as [-> | ->]; done.
Qed.

Lemma deliver_invariant ints s :
  Forall P ints → I (debugSession s) → I (debugSession (deliver ints s)).
Proof.
  unfold deliver. intros Hints. revert s.
  induction Hints as [|i ints Hi _ IH]; intros s Hs; simpl; [done|].
  apply IH. by apply on_interrupt_invariant.
Qed.

Lemma preserves_await {A} (p : Await A) :
  Forall P (during p) → preserves I (await p).
Proof.
  intros Hp. unfold await. apply preserves_bind.
  - apply preserves_modify. intros s. by apply deliver_invariant.
  - intros _. apply preserves_settle.
Qed.

Lemma preserves_sleep ms ints : Forall P ints → preserves I (sleep ms ints).
Proof.
  intros Hp. unfold sleep. apply preserves_bind; [apply preserves_emit|].
  intros _. apply preserves_modify. intros s. by apply deliver_invariant.
Qed.

Ltac preserve :=
  repeat first
    [ apply preserves_ret | apply preserves_throw | apply preserves_scanning
    | apply preserves_emit | apply preserves_settle
    | apply preserves_await; [done || tauto]
    | apply preserves_sleep; [done || tauto]
    | apply preserves_modify; intros ? ?; simpl; done
    | apply preserves_try_catch; [|intros ?]
    | apply preserves_bind; [|intros ?] ].

Lemma preserves_findAvailablePort_loop fuel probe port :
  (∀ p, Forall P (during (probe p))) →
  preserves I (findAvailablePort_loop fuel probe port).
Proof.
  intros Hprobe. revert port.
  induction fuel as [|fuel IH]; intros port; simpl; [preserve|].
  apply preserves_bind; [by intros w Hw|]. intros s.
  case_decide; [apply IH|].
  preserve. destruct a0; [preserve | apply IH].
Qed.

Lemma preserves_startNodeProcess fuel a env :
  (∀ p, Forall P (during (isPortAvailable env p))) →
  preserves I (startNodeProcess fuel a env).
Proof.
  intros Hprobe. unfold startNodeProcess.
  destruct (negb _); [preserve|].
  unfold findAvailablePort, startNodeProcess_spawn.
  apply preserves_bind.
  - apply preserves_bind; [by intros w Hw|]. intros s.
    apply preserves_bind; [by apply preserves_findAvailablePort_loop|].
    intros port. preserve.
  - intros port. preserve.
    destruct a1 as [pid|]; [|preserve].
    case_decide; preserve.
Qed.

Lemma preserves_killProcess pid kill : preserves I (killProcess pid kill).
Proof.
  unfold killProcess. apply preserves_get. intros w Hw.
  destruct (JsMap.get pid (managedProcesses (server w))); [|done].
  revert w Hw. fold (preserves I (A:=Response)). preserve.
Qed.

Lemma preserves_attachDebugger port env :
  lets_in P (attach_debugger port env) → preserves I (attachDebugger port env).
Proof.
  simpl. intros (?&?&?&?&?&?&?&?). unfold attachDebugger.
  apply preserves_try_catch; [|intros ?; preserve].
  apply preserves_get. intros w Hw. revert w Hw.
  fold (preserves I (A:=Response)).
  intros w. destruct (DebugSession.client (debugSession (server w))).
  - revert w. fold (preserves I (A:=Response)). preserve.
  - revert w. fold (preserves I (A:=Response)). preserve.
Qed.

Lemma preserves_setBreakpoint file line condition reply :
  Forall P (during reply) → preserves I (setBreakpoint file line condition reply).
Proof.
  intros Hreply. unfold setBreakpoint. apply preserves_get. intros w Hw.
  destruct (no_session _); [done|].
  revert w Hw. fold (preserves I (A:=Response)).
  apply preserves_try_catch; [|intros ?; preserve].
  apply preserves_bind.
  { intros w Hw. unfold the_client.
    by destruct (DebugSession.client (debugSession (server w))). }
  intros c. preserve. destruct (truthy a0) as [id|]; [|preserve].
  apply preserves_get. intros w Hw.
  destruct (DebugSession.breakpoints (debugSession (server w))) as [table|] eqn:Ht;
    [|done].
  simpl. by apply I_set.
Qed.

Lemma preserves_stepDebug action reply :
  Forall P (during reply) → preserves I (stepDebug action reply).
Proof.
  intros Hreply w Hw. unfold stepDebug. run_monad.
  destruct (no_session _); [done|].
  destruct (DebugSession.client _); simpl; [|done].
  destruct reply as [ints [[]|e]]; simpl in *; by apply deliver_invariant.
Qed.

Lemma preserves_pauseExecution reply :
  Forall P (during reply) → preserves I (pauseExecution reply).
Proof.
  intros Hreply w Hw. unfold pauseExecution. run_monad.
  destruct (no_session _); [done|].
  destruct (DebugSession.client _); simpl; [|done].
  destruct reply as [ints [[]|e]]; simpl in *; by apply deliver_invariant.
Qed.

Lemma preserves_evaluateExpression expression reply :
  Forall P (during reply) → preserves I (evaluateExpression expression reply).
Proof.
  intros Hreply w Hw. unfold evaluateExpression. run_monad.
  destruct (no_session _); [done|].
  destruct (DebugSession.client _); simpl; [|done].
  destruct reply as [ints [[[exception|] r]|e]]; simpl in *;
    by apply deliver_invariant.
Qed.

Lemma preserves_cleanup close kill : preserves I (cleanup close kill).
Proof. intros w _. by rewrite cleanup_session. Qed.

Lemma perform_invariant a w :
  lets_in P a → I (debugSession (server w)) →
  I (debugSession (server (perform a w))).
Proof.
  intros Ha Hw. destruct a; simpl in *.
  - by apply preserves_startNodeProcess.
  - by apply preserves_killProcess.
  - by apply preserves_attachDebugger.
  - by apply preserves_setBreakpoint.
  - by apply preserves_stepDebug.
  - by apply preserves_pauseExecution.
  - by apply preserves_evaluateExpression.
  - by apply on_interrupt_invariant.
  - by apply preserves_cleanup.
Qed.

Lemma run_invariant actions w :
  Forall (lets_in P) actions → I (debugSession (server w)) →
  I (debugSession (server (run actions w))).
Proof.
  unfold run. intros Hactions. revert w.
  induction Hactions as [|a actions Ha _ IH]; intros w Hw; simpl; [done|].
  apply IH. by apply perform_invariant.
Qed.
End session_invariant.

Lemma run_snoc actions a w : run (actions ++ [a]) w = perform a (run actions w).
Proof. unfold run. by rewrite foldl_app. Qed.

Lemma reachable_perform a w : reachable w → reachable (perform a w).
Proof. intros [actions ->]. exists (actions ++ [a]). by rewrite run_snoc. Qed.

Lemma lets_in_any a : lets_in any_interrupt a.
Proof.
  assert (Hall : ∀ ints, Forall any_interrupt ints).
  { intros ints. apply Forall_forall. by intros. }
  destruct a; simpl; repeat split; try done; apply Hall.
Qed.

(** ** Pause flag and call stack *)

Lemma paused_iff_frames_initial : paused_iff_frames DebugSession.initial.
Proof. split; [done | by intros (?&?&?)]. Qed.

Lemma paused_iff_frames_disconnected : paused_iff_frames DebugSession.disconnected.
Proof. split; [done | by intros (?&?&?)]. Qed.

Lemma paused_iff_frames_attached p c : paused_iff_frames (DebugSession.attached p c).
Proof. split; [done | by intros (?&?&?)]. Qed.

Lemma paused_iff_frames_event e d :
  carries_frames (Event e) → paused_iff_frames d → paused_iff_frames (on_event e d).
Proof.
  unfold paused_iff_frames. destruct e as [callFrames| |id]; simpl.
  - intros Hframes _. destruct callFrames as [|frame frames]; [done|].
    split; [by exists frame, frames | done].
  - intros _ _. split; [done | by intros (?&?&?)].
  - done.
Qed.

Lemma paused_iff_frames_set d table k v :
  paused_iff_frames d → DebugSession.breakpoints d = Some table →
  paused_iff_frames (DebugSession.with_breakpoints (Some (JsMap.set k v table)) d).
Proof. done. Qed.

(** C3 (amended).  Provided every pause event delivered by the protocol
    carries at least one call frame, in every state the server reaches
    [isPaused] is true exactly when the call stack holds a frame; and the
    pause handler, the resume handler and the session object assigned by
    attach each set the two fields together: the pause handler stores the
    frames of the event and sets [isPaused], the resume handler and the
    attach initialisation clear both. *)
Theorem paused_flag_matches_call_stack (actions : list Action) :
  Forall (lets_in carries_frames) actions →
  paused_iff_frames (debugSession (server (run actions initial_world))) ∧
  (∀ d callFrames,
     DebugSession.isPaused (on_event (DebuggerPaused callFrames) d) = Some true ∧
     DebugSession.callStack (on_event (DebuggerPaused callFrames) d) = Some callFrames) ∧
  (∀ d,
     DebugSession.isPaused (on_event DebuggerResumed d) = Some false ∧
     DebugSession.callStack (on_event DebuggerResumed d) = Some []) ∧
  (∀ p c,
     DebugSession.isPaused (DebugSession.attached p c) = Some false ∧
     DebugSession.callStack (DebugSession.attached p c) = Some []).
Proof.
  intros Hactions. split; [|done].
  apply (run_invariant paused_iff_frames carries_frames);
    auto using paused_iff_frames_initial, paused_iff_frames_disconnected,
      paused_iff_frames_attached, paused_iff_frames_event,
      paused_iff_frames_set.
Qed.

(** ** Breakpoint table *)

Lemma unique_keys_set d table k v :
  unique_keys d → DebugSession.breakpoints d = Some table →
  unique_keys (DebugSession.with_breakpoints (Some (JsMap.set k v table)) d).
Proof.
  intros Hd Htable table' [= <-]. apply JsMapFacts.keys_set_NoDup. by apply Hd.
Qed.

Lemma unique_keys_event e d : unique_keys d → unique_keys (on_event e d).
Proof. by destruct e. Qed.

Lemma unique_keys_fresh d :
  DebugSession.breakpoints d = Some [] ∨ DebugSession.breakpoints d = None →
  unique_keys d.
Proof. intros [H|H] table; rewrite H; [intros [= <-]; apply NoDup_nil_2 | done]. Qed.

Lemma unique_keys_deliver ints s :
  unique_keys (debugSession s) → unique_keys (debugSession (deliver ints s)).
Proof.
  apply (deliver_invariant unique_keys any_interrupt).
  - apply unique_keys_fresh. by right.
  - intros e d _. apply unique_keys_event.
  - apply Forall_forall. by intros.
Qed.

Lemma reachable_unique_keys w :
  reachable w → unique_keys (debugSession (server w)).
Proof.
  intros [actions ->].
  apply (run_invariant unique_keys any_interrupt).
  - apply unique_keys_fresh. by left.
  - apply unique_keys_fresh. by right.
  - intros p c. apply unique_keys_fresh. by left.
  - intros e d _. apply unique_keys_event.
  - apply unique_keys_set.
  - apply Forall_forall. intros a _. apply lets_in_any.
  - apply unique_keys_fresh. by left.
Qed.

(** What a successful [set_breakpoint] did. *)
Lemma setBreakpoint_success file line condition reply w r w' :
  setBreakpoint file line condition reply w = (Ok r, w') →
  isError r = false →
  ∃ id table,
    outcome reply = inl (Some id) ∧
    DebugSession.breakpoints (debugSession (deliver (during reply) (server w)))
      = Some table ∧
    debugSession (server w') =
      DebugSession.with_breakpoints
        (Some (JsMap.set (breakpointKey file line) id table))
        (debugSession (deliver (during reply) (server w))).
Proof.
  unfold setBreakpoint. run_monad.
  destruct (no_session _); [by intros [= <- <-]|].
  destruct (DebugSession.client _); simpl; [|by intros [= <- <-]].
  destruct reply as [ints [breakpointId|e]]; simpl; [|by intros [= <- <-]].
  destruct breakpointId as [id|]; simpl; [|by intros [= <- <-]].
  destruct id as [|ch id]; simpl; [by intros [= <- <-]|].
  destruct (DebugSession.breakpoints _) as [table|] eqn:Htable; simpl;
    [|by intros [= <- <-]].
  intros [= <- <-] _. by exists (String ch id), table.
Qed.

(** C7. In a state the server can reach, when [set_breakpoint] succeeds
    twice for the same file and line (whatever the two conditions are),
    the breakpoint table then holds exactly one entry under that key, its
    identifier is the one the protocol returned to the second call, and no
    key of the table is stored twice. *)
Theorem breakpoint_set_twice
    (w w1 w2 : World) (file : string) (line : Z)
    (condition1 condition2 : option string)
    (reply1 reply2 : Await (option string)) (r1 r2 : Response) :
  reachable w →
  setBreakpoint file line condition1 reply1 w = (Ok r1, w1) →
  isError r1 = false →
  setBreakpoint file line condition2 reply2 w1 = (Ok r2, w2) →
  isError r2 = false →
  ∃ id2 table,
    outcome reply2 = inl (Some id2) ∧
    DebugSession.breakpoints (debugSession (server w2)) = Some table ∧
    JsMap.get (breakpointKey file line) table = Some id2 ∧
    JsMap.occurrences (breakpointKey file line) table = 1%nat ∧
    NoDup (JsMap.keys table).
Proof.
  intros Hw Hfirst _ Hsecond Hok2.
  assert (Hw1 : reachable w1).
  { replace w1 with (perform (set_breakpoint file line condition1 reply1) w)
      by (simpl; by rewrite Hfirst).
    by apply reachable_perform. }
  destruct (setBreakpoint_success _ _ _ _ _ _ _ Hsecond Hok2)
    as (id2 & table & Hreply & Htable & Hsession).
  assert (Hunique : NoDup (JsMap.keys table)).
  { eapply unique_keys_deliver; [|exact Htable]. by apply reachable_unique_keys. }
  exists id2, (JsMap.set (breakpointKey file line) id2 table).
  split; [done|]. split; [by rewrite Hsession|].
  split; [apply JsMapFacts.get_set_eq|].
  split; [by apply JsMapFacts.occurrences_set | by apply JsMapFacts.keys_set_NoDup].
Qed.

Lemma paused_flag_matches_call_stack_witness :
  Forall (lets_in carries_frames) paused_on_entry_run ∧
  paused_iff_frames (debugSession (server (run paused_on_entry_run initial_world))).
Proof.
  assert (Hrun : Forall (lets_in carries_frames) paused_on_entry_run).
  { repeat constructor; simpl; done. }
  split; [exact Hrun|].
  exact (proj1 (paused_flag_matches_call_stack paused_on_entry_run Hrun)).
Defined.

(** C3 as stated fails: a pause event without frames leaves a reachable
    state in which [isPaused] is true and the call stack is empty. *)
Lemma pause_event_without_frames :
  let w := perform (interrupt (Event (DebuggerPaused []))) attached_world in
  reachable w ∧
  DebugSession.isPaused (debugSession (server w)) = Some true ∧
  DebugSession.callStack (debugSession (server w)) = Some [] ∧
  ¬ paused_iff_frames (debugSession (server w)).
Proof.
  split.
  { exists [start_node_process 1 (start_args "a.js") (start_env true 4242);
            attach_debugger 9229 (attach_env 1%nat []);
            interrupt (Event (DebuggerPaused []))].
    reflexivity. }
  split; [reflexivity|]. split; [reflexivity|].
  intros [Hframes _]. by destruct (Hframes eq_refl) as (frame & frames & ?).
Qed.

Lemma reachable_attached_world : reachable attached_world.
Proof.
  exists [start_node_process 1 (start_args "a.js") (start_env true 4242);
          attach_debugger 9229 (attach_env 1%nat [])].
  reflexivity.
Qed.

Lemma breakpoint_set_twice_witness :
  ∃ id2 table,
    outcome (resolved (Some "2:0")) = inl (Some id2) ∧
    DebugSession.breakpoints (debugSession (server rebreakpoint_world)) = Some table ∧
    JsMap.get (breakpointKey "file:///tmp/a.js" 5) table = Some id2 ∧
    JsMap.occurrences (breakpointKey "file:///tmp/a.js" 5) table = 1%nat ∧
    NoDup (JsMap.keys table).
Proof.
  apply (breakpoint_set_twice attached_world breakpoint_world rebreakpoint_world
           "file:///tmp/a.js" 5 None None
           (resolved (Some "1:0")) (resolved (Some "2:0"))
           (ok_response "Set breakpoint at file:///tmp/a.js:5 - ID: 1:0")
           (ok_response "Set breakpoint at file:///tmp/a.js:5 - ID: 2:0")).
  - exact reachable_attached_world.
  - reflexivity.
  - reflexivity.
  - reflexivity.
  - reflexivity.
Defined.

(** ** Attach *)

Lemma deliver_app ints1 ints2 s :
  deliver (ints1 ++ ints2) s = deliver ints2 (deliver ints1 s).
Proof. unfold deliver. by rewrite foldl_app. Qed.

Lemma deliver_events evs s :
  deliver (Event <$> evs) s = with_debugSession (on_events evs (debugSession s)) s.
Proof.
  revert s. induction evs as [|e evs IH]; intros s.
  - by destruct s.
  - change (deliver (Event <$> e :: evs) s)
      with (deliver (Event <$> evs) (on_interrupt (Event e) s)).
    by rewrite IH.
Qed.

Lemma on_events_pause_state evs st d :
  DebugSession.isPaused d = Some (paused_flag st) →
  DebugSession.callStack d = Some (frames_of st) →
  DebugSession.isPaused (on_events evs d) = Some (paused_flag (pause_state_from st evs)) ∧
  DebugSession.callStack (on_events evs d) = Some (frames_of (pause_state_from st evs)).
Proof.
  revert st d. induction evs as [|e evs IH]; intros st d Hflag Hstack; [done|].
  destruct e as [callFrames| |id]; simpl.
  - by apply (IH (Some callFrames)).
  - by apply (IH None).
  - by apply (IH st).
Qed.

Lemma on_events_frame evs d :
  DebugSession.connected (on_events evs d) = DebugSession.connected d ∧
  DebugSession.port (on_events evs d) = DebugSession.port d ∧
  DebugSession.client (on_events evs d) = DebugSession.client d ∧
  DebugSession.breakpoints (on_events evs d) = DebugSession.breakpoints d.
Proof.
  revert d. induction evs as [|e evs IH]; intros d; [done|].
  simpl. destruct (IH (on_event e d)) as (-> & -> & -> & ->). by destruct e.
Qed.

Lemma on_events_context evs d :
  DebugSession.currentExecutionContext (on_events evs d)
  = last_context (DebugSession.currentExecutionContext d) evs.
Proof.
  revert d. induction evs as [|e evs IH]; intros d; [done|].
  simpl. rewrite IH. by destruct e.
Qed.

(** What a successful [attach_debugger] did: the client was obtained, the
    session object was assigned, and only the handlers let in afterwards
    have touched it. *)
Lemma attachDebugger_success port env w r w' :
  attachDebugger port env w = (Ok r, w') →
  isError r = false →
  ∃ c s0,
    outcome (connectReply env) = inl c ∧
    r = ok_response ("Successfully attached debugger to port " +:+ pretty port) ∧
    server w' =
      deliver (handshake_interrupts env)
        (with_debugSession (DebugSession.attached port c) s0).
Proof.
  unfold attachDebugger, handshake_interrupts.
  destruct env as [[ints1 o1] [ints2 o2] [ints3 o3] [ints4 o4] [ints5 o5] d1
                     [ints6 o6] d2].
  run_monad.
  destruct (DebugSession.client (debugSession (server w))) as [previous|]; simpl.
  - destruct o1 as [[]|e]; simpl; [|by intros [= <- <-]].
    destruct o2 as [c|e]; simpl; [|by intros [= <- <-]].
    destruct o3 as [[]|e]; simpl; [|by intros [= <- <-]].
    destruct o4 as [[]|e]; simpl; [|by intros [= <- <-]].
    destruct o5 as [[]|e5], o6 as [[]|e6]; simpl; intros [= <- <-] _;
      eexists c, _; (split; [done|]); (split; [done|]);
      rewrite ?deliver_app; reflexivity.
  - destruct o2 as [c|e]; simpl; [|by intros [= <- <-]].
    destruct o3 as [[]|e]; simpl; [|by intros [= <- <-]].
    destruct o4 as [[]|e]; simpl; [|by intros [= <- <-]].
    destruct o5 as [[]|e5], o6 as [[]|e6]; simpl; intros [= <- <-] _;
      eexists c, _; (split; [done|]); (split; [done|]);
      rewrite ?deliver_app; reflexivity.
Qed.

(** C1 (amended).  When [attach_debugger] returns successfully and only
    protocol events were handled during the handshake after the session
    object was assigned, the session is connected to the port, and
    [isPaused] and the call stack are what the pause and resume events among
    them leave: the session is paused with a non-empty call stack exactly
    when the last of these events is a pause event that carries a frame.
    When no such event arrives before the delays end, the call still
    succeeds, with [isPaused] false and an empty call stack. *)
Theorem attach_pause_state
    (port : Z) (env : AttachEnv) (w w' : World) (r : Response)
    (evs : list CdpEvent) :
  attachDebugger port env w = (Ok r, w') →
  isError r = false →
  handshake_interrupts env = Event <$> evs →
  let d := debugSession (server w') in
  DebugSession.connected d = true ∧
  DebugSession.port d = Some port ∧
  DebugSession.isPaused d = Some (paused_flag (pause_state evs)) ∧
  DebugSession.callStack d = Some (frames_of (pause_state evs)) ∧
  ((DebugSession.isPaused d = Some true ∧
    ∃ frame frames, DebugSession.callStack d = Some (frame :: frames)) ↔
   ∃ frame frames, pause_state evs = Some (frame :: frames)) ∧
  (pause_state evs = None →
   DebugSession.isPaused d = Some false ∧ DebugSession.callStack d = Some []).
Proof.
  intros Hattach Hok Hevents.
  destruct (attachDebugger_success _ _ _ _ _ Hattach Hok)
    as (c & s0 & _ & _ & Hserver).
  simpl. rewrite Hserver, Hevents, deliver_events. simpl.
  destruct (on_events_frame evs (DebugSession.attached port c))
    as (Hconnected & Hport & _ & _).
  destruct (on_events_pause_state evs None (DebugSession.attached port c)
              eq_refl eq_refl) as (Hflag & Hstack).
  fold (pause_state evs) in Hflag, Hstack.
  rewrite Hconnected, Hport, Hflag, Hstack.
  split; [done|]. split; [done|]. split; [done|]. split; [done|]. split.
  - destruct (pause_state evs) as [frames|]; simpl.
    + split.
      * intros (_ & frame & frames' & [= ->]). by exists frame, frames'.
      * intros (frame & frames' & [= ->]). split; [done|]. by exists frame, frames'.
    + split; [by intros ([=] & _) | by intros (?&?&?)].
  - by intros ->.
Qed.

Lemma attach_pause_state_witness :
  let w' := (attachDebugger 9229
               (attach_env 1%nat [Event (DebuggerPaused [sample_frame])])
               launched_world).2 in
  DebugSession.isPaused (debugSession (server w')) = Some true ∧
  DebugSession.callStack (debugSession (server w')) = Some [sample_frame].
Proof.
  pose proof
    (attach_pause_state 9229
       (attach_env 1%nat [Event (DebuggerPaused [sample_frame])])
       launched_world
       (attachDebugger 9229
          (attach_env 1%nat [Event (DebuggerPaused [sample_frame])])
          launched_world).2
       (ok_response "Successfully attached debugger to port 9229")
       [DebuggerPaused [sample_frame]]
       eq_refl eq_refl eq_refl) as (_ & _ & Hflag & Hstack & _).
  split; [exact Hflag | exact Hstack].
Defined.

(** C1 as stated fails: the process was launched with [--inspect-brk], the
    attach succeeds, and no pause event arrived before the delays ended;
    the session is connected but not paused and has no frame. *)
Lemma attach_returns_without_pause :
  JsMap.get 4242 (managedProcesses (server launched_world))
    = Some (ManagedProcess.mk 4242 9229 "node" ["--inspect-brk=9229"; "a.js"]
              0 "/tmp/a.js") ∧
  attachDebugger 9229 (attach_env 1%nat []) launched_world
    = (Ok (ok_response "Successfully attached debugger to port 9229"),
       attached_world) ∧
  DebugSession.connected (debugSession (server attached_world)) = true ∧
  DebugSession.isPaused (debugSession (server attached_world)) = Some false ∧
  DebugSession.callStack (debugSession (server attached_world)) = Some [].
Proof. repeat split; reflexivity. Qed.

(** C8 (amended).  When a previous client handle exists, [attach_debugger]
    closes it before it opens the new connection.  A failure of that close
    is not swallowed: the attach stops there, no connection is opened, the
    session object is not replaced, and the call returns the "Error
    attaching debugger" error that carries the failure. *)
Theorem attach_closes_previous_first
    (w : World) (port : Z) (env : AttachEnv) (previous : ClientId) :
  DebugSession.client (debugSession (server w)) = Some previous →
  (outcome (closeReply env) = inl () →
   ∃ rest,
     effects (attachDebugger port env w).2
     = effects w ++ Close previous :: Connect port :: rest) ∧
  (∀ error,
     outcome (closeReply env) = inr error →
     attachDebugger port env w
     = (Ok (error_response ("Error attaching debugger: " +:+ error)),
        {| server := deliver (during (closeReply env)) (server w);
           effects := effects w ++ [Close previous] |})).
Proof.
  intros Hclient. unfold attachDebugger.
  destruct env as [[ints1 o1] [ints2 o2] [ints3 o3] [ints4 o4] [ints5 o5] d1
                     [ints6 o6] d2].
  run_monad. rewrite Hclient. simpl. split.
  - intros ->. simpl.
    destruct o2 as [c|e]; simpl;
      [|eexists; rewrite <- !app_assoc; reflexivity].
    destruct o3 as [[]|e]; simpl;
      [|eexists; rewrite <- !app_assoc; reflexivity].
    destruct o4 as [[]|e]; simpl;
      [|eexists; rewrite <- !app_assoc; reflexivity].
    destruct o5 as [[]|e5], o6 as [[]|e6]; simpl;
      eexists; rewrite <- !app_assoc; reflexivity.
  - intros error ->. reflexivity.
Qed.

Lemma attach_closes_previous_first_witness :
  (∃ rest,
     effects (attachDebugger 9229 (attach_env 2%nat []) attached_world).2
     = effects attached_world ++ Close 1%nat :: Connect 9229 :: rest) ∧
  attachDebugger 9229 (attach_env_close_fails 2%nat "Error: socket hang up")
    attached_world
  = (Ok (error_response "Error attaching debugger: Error: socket hang up"),
     {| server := server attached_world;
        effects := effects attached_world ++ [Close 1%nat] |}).
Proof.
  split.
  - apply (attach_closes_previous_first attached_world 9229
             (attach_env 2%nat []) 1%nat); reflexivity.
  - apply (attach_closes_previous_first attached_world 9229
             (attach_env_close_fails 2%nat "Error: socket hang up") 1%nat);
      reflexivity.
Defined.

(** C8 as stated fails: the close of the previous client fails, and the
    attach returns an error; the only outside call it made is that close,
    no connection is opened, and the session keeps the previous client. *)
Lemma failed_close_aborts_attach :
  let '(r, w') :=
    attachDebugger 9229 (attach_env_close_fails 2%nat "Error: socket hang up")
      attached_world in
  DebugSession.client (debugSession (server attached_world)) = Some 1%nat ∧
  r = Ok (error_response "Error attaching debugger: Error: socket hang up") ∧
  effects w' = effects attached_world ++ [Close 1%nat] ∧
  DebugSession.client (debugSession (server w')) = Some 1%nat.
Proof. repeat split; reflexivity. Qed.

(** ** Evaluate *)



(** The session object is assigned after both domains are enabled, so a
    context reported while [Runtime.enable] is awaited is recorded in the
    object that the assignment replaces: the attached session has no
    current execution context. *)
Lemma attach_discards_context_reported_on_enable :
  let w' := (attachDebugger 9229 (attach_env_context_on_enable 1%nat 1)
               launched_world).2 in
  DebugSession.connected (debugSession (server w')) = true ∧
  DebugSession.currentExecutionContext (debugSession (server w')) = None ∧
  effects (evaluateExpression "x"
             (resolved {| exceptionDetails := None;
                          result := {| value := Some "1"; description := None |} |})
             w').2
  = effects w' ++ [Call 1%nat (RuntimeEvaluate "x" None)].
Proof. repeat split; reflexivity. Qed.

(** ** The breakpoint table across attach and exit *)

Lemma fresh_table_deliver ints s :
  fresh_table (debugSession s) → fresh_table (debugSession (deliver ints s)).
Proof.
  apply (deliver_invariant fresh_table any_interrupt).
  - by right.
  - intros e d _. by destruct e.
  - apply Forall_forall. by intros.
Qed.

Lemma on_exit_bound pid process s :
  pid ≠ 0 →
  JsMap.get pid (managedProcesses s) = Some process →
  DebugSession.port (debugSession s) = Some (ManagedProcess.port process) →
  debugSession (on_exit pid s) = DebugSession.disconnected.
Proof.
  intros Hpid Hget Hport. unfold on_exit.
  rewrite decide_False by done. rewrite Hget. simpl. by rewrite decide_True.
Qed.

Lemma on_exit_unbound pid s :
  (∀ process,
     JsMap.get pid (managedProcesses s) = Some process →
     DebugSession.port (debugSession s) ≠ Some (ManagedProcess.port process)) →
  debugSession (on_exit pid s) = debugSession s.
Proof.
  intros Hother. unfold on_exit. case_decide; [done|].
  destruct (JsMap.get pid (managedProcesses s)) as [process|]; [|done].
  simpl. rewrite decide_False; [done|]. by apply Hother.
Qed.

(** C9 as stated fails: a breakpoint is set, and both a re-attach and the
    exit of the debugged process discard it. *)
Lemma reattach_and_exit_discard_breakpoints :
  DebugSession.breakpoints (debugSession (server breakpoint_world))
  = Some [("file:///tmp/a.js:5", "1:0")] ∧
  attachDebugger 9229 (attach_env 2%nat []) breakpoint_world
  = (Ok (ok_response "Successfully attached debugger to port 9229"),
     (attachDebugger 9229 (attach_env 2%nat []) breakpoint_world).2) ∧
  DebugSession.breakpoints
    (debugSession
       (server (attachDebugger 9229 (attach_env 2%nat []) breakpoint_world).2))
  = Some [] ∧
  DebugSession.breakpoints
    (debugSession (server (perform (interrupt (ChildExit 4242)) breakpoint_world)))
  = None.
Proof. repeat split; reflexivity. Qed.

(** ** Kill and exit *)

(** A successful kill removes the entry of the pid and nothing else: the
    used ports stay as they are. *)
Lemma killProcess_removes_entry w pid process :
  JsMap.get pid (managedProcesses (server w)) = Some process →
  killProcess pid (inl ()) w
  = (Ok (ok_response ("Killed process " +:+ pretty pid)),
     {| server := with_managedProcesses
                    (JsMap.delete pid (managedProcesses (server w))) (server w);
        effects := effects w ++ [Kill (ManagedProcess.pid process)] |}).
Proof. intros Hget. unfold killProcess. run_monad. by rewrite Hget. Qed.

Lemma killProcess_unknown w pid :
  JsMap.get pid (managedProcesses (server w)) = None →
  killProcess pid (inl ()) w
  = (Ok (error_response
           ("Process " +:+ pretty pid +:+ " not found in managed processes")),
     w).
Proof. intros Hget. unfold killProcess. run_monad. by rewrite Hget. Qed.

(** The exit observer of a process that is still registered removes its
    entry and releases its port. *)
Lemma on_exit_registered pid process s :
  pid ≠ 0 →
  JsMap.get pid (managedProcesses s) = Some process →
  managedProcesses (on_exit pid s) = JsMap.delete pid (managedProcesses s) ∧
  S (length (managedProcesses (on_exit pid s))) = length (managedProcesses s) ∧
  usedPorts (on_exit pid s) = usedPorts s ∖ {[ManagedProcess.port process]} ∧
  nextPort (on_exit pid s) = nextPort s.
Proof.
  intros Hpid Hget. unfold on_exit. rewrite decide_False by done.
  rewrite Hget. simpl.
  assert (Hlen := JsMapFacts.length_delete pid process (managedProcesses s) Hget).
  by case_decide.
Qed.

(** The exit observer of a process whose entry is gone does nothing. *)
Lemma on_exit_unregistered pid s :
  JsMap.get pid (managedProcesses s) = None → on_exit pid s = s.
Proof. intros Hget. unfold on_exit. case_decide; [done|]. by rewrite Hget. Qed.

(** After [kill_process], the exit observer finds no entry: the port of
    the killed process stays in the used ports, and a second kill reports
    that the process is not found. *)
Lemma kill_then_exit w pid process :
  NoDup (JsMap.keys (managedProcesses (server w))) →
  JsMap.get pid (managedProcesses (server w)) = Some process →
  let w' := (killProcess pid (inl ()) w).2 in
  S (length (managedProcesses (server w'))) = length (managedProcesses (server w)) ∧
  on_exit pid (server w') = server w' ∧
  usedPorts (server w') = usedPorts (server w) ∧
  killProcess pid (inl ()) w'
  = (Ok (error_response
           ("Process " +:+ pretty pid +:+ " not found in managed processes")),
     w').
Proof.
  intros Hunique Hget. rewrite (killProcess_removes_entry w pid process Hget).
  simpl.
  assert (Hgone : JsMap.get pid (JsMap.delete pid (managedProcesses (server w))) = None)
    by by apply JsMapFacts.get_delete_eq.
  split; [by eapply JsMapFacts.length_delete|].
  split; [by apply on_exit_unregistered|]. split; [done|].
  by apply killProcess_unknown.
Qed.

(** C2, at the failing input.  Process 4242 is launched on port 9229 and
    killed with [kill_process]: its entry is removed, and a second kill
    reports that the process is not found; but port 9229 is still in the
    used ports after the kill, and also after the exit observer of the
    process has run, which finds no entry and releases nothing.  When the
    same process exits by itself, its entry is removed and port 9229 is
    released. *)
Theorem killed_process_keeps_its_port :
  managedProcesses (server launched_world)
  = [(4242, ManagedProcess.mk 4242 9229 "node" ["--inspect-brk=9229"; "a.js"]
              0 "/tmp/a.js")] ∧
  9229 ∈ usedPorts (server launched_world) ∧
  killProcess 4242 (inl ()) launched_world
  = (Ok (ok_response "Killed process 4242"), killed_world) ∧
  managedProcesses (server killed_world) = [] ∧
  9229 ∈ usedPorts (server killed_world) ∧
  managedProcesses (server killed_and_exited_world) = [] ∧
  9229 ∈ usedPorts (server killed_and_exited_world) ∧
  (killProcess 4242 (inl ()) killed_world).1
  = Ok (error_response "Process 4242 not found in managed processes") ∧
  managedProcesses (server exited_world) = [] ∧
  9229 ∉ usedPorts (server exited_world).
Proof.
  assert (Hin : 9229 ∈ ({[9229]} ∪ ∅ : gset Z)) by set_solver.
  assert (Hout : 9229 ∉ (({[9229]} ∪ ∅) ∖ {[9229]} : gset Z)) by set_solver.
  repeat split; try reflexivity; try exact Hin. exact Hout.
Qed.

(** ** Port allocation *)

Lemma on_interrupt_ports i s :
  nextPort (on_interrupt i s) = nextPort s ∧
  usedPorts (on_interrupt i s) ⊆ usedPorts s.
Proof.
  destruct i as [e|pid]; simpl; [done|].
  unfold on_exit. case_decide; [done|].
  destruct (JsMap.get pid (managedProcesses s)); [|done].
  case_decide; simpl; (split; [done | set_solver]).
Qed.

Lemma deliver_ports ints s :
  nextPort (deliver ints s) = nextPort s ∧
  usedPorts (deliver ints s) ⊆ usedPorts s.
Proof.
  unfold deliver. revert s. induction ints as [|i ints IH]; intros s; simpl; [done|].
  destruct (IH (on_interrupt i s)) as [-> Hsub].
  destruct (on_interrupt_ports i s) as [-> Hsub']. split; [done | set_solver].
Qed.

(** The scan returns a port at or after the one it starts from that is not
    in the used ports. *)
Lemma findAvailablePort_loop_fresh fuel probe port w p w' :
  findAvailablePort_loop fuel probe port w = (Ok p, w') →
  port ≤ p ∧ (p ∉ usedPorts (server w')) ∧
  nextPort (server w') = nextPort (server w).
Proof.
  revert port w. induction fuel as [|fuel IH]; intros port w; simpl; [done|].
  run_monad. case_decide as Hused.
  - intros Hloop. apply IH in Hloop as (? & ? & ?). split; [lia | done].
  - destruct (probe port) as [ints [[]|e]] eqn:Hprobe; simpl; [| |done].
    + intros [= <- <-]. simpl.
      destruct (deliver_ports ints (server w)) as [-> Hsub].
      split; [lia|]. split; [set_solver | done].
    + intros Hloop. apply IH in Hloop as (? & ? & Hnext). simpl in Hnext.
      destruct (deliver_ports ints (server w)) as [Hnext' _].
      split; [lia|]. split; [done | congruence].
Qed.

(** A call of the allocator that runs alone returns a port that is at or
    after the cursor and not in the used ports, and leaves the cursor just
    after it. *)
Lemma findAvailablePort_fresh fuel probe w p w' :
  findAvailablePort fuel probe w = (Ok p, w') →
  nextPort (server w) ≤ p ∧
  (p ∉ usedPorts (server w')) ∧
  nextPort (server w') = p + 1.
Proof.
  unfold findAvailablePort. run_monad.
  destruct (findAvailablePort_loop fuel probe (nextPort (server w)) w)
    as [[q|e|] w1] eqn:Hloop; [|done|done].
  intros [= <- <-]. simpl.
  by apply findAvailablePort_loop_fresh in Hloop as (? & ? & ?).
Qed.

(** Two calls of the allocator, one after the other, return different
    ports: the second is larger. *)
Lemma findAvailablePort_twice fuel1 fuel2 probe1 probe2 w p1 w1 p2 w2 :
  findAvailablePort fuel1 probe1 w = (Ok p1, w1) →
  findAvailablePort fuel2 probe2 w1 = (Ok p2, w2) →
  p1 < p2.
Proof.
  intros (_ & _ & Hnext)%findAvailablePort_fresh (Hle & _)%findAvailablePort_fresh.
  lia.
Qed.

(** The scan ends: when some port at or after the cursor is free and not
    used, and the probes before it all settle, a call with enough fuel
    returns. *)
Lemma findAvailablePort_loop_returns probe (q : Z) (n : nat) port w :
  q = port + Z.of_nat n →
  q ∉ usedPorts (server w) →
  outcome (probe q) = inl true →
  (∀ p, port ≤ p < q → ∃ free, outcome (probe p) = inl free) →
  ∃ p w', findAvailablePort_loop (S n) probe port w = (Ok p, w') ∧ p ≤ q.
Proof.
  revert port w. induction n as [|n IH]; intros port w Hq Hfree Hprobe Hsettle.
  - assert (q = port) as -> by lia. simpl. run_monad.
    rewrite decide_False by done.
    destruct (probe port) as [ints o]. simpl in *. subst o. simpl.
    eexists _, _. split; [done | lia].
  - assert (Hstep : ∀ w1,
              usedPorts (server w1) ⊆ usedPorts (server w) →
              ∃ p w', findAvailablePort_loop (S n) probe (port + 1) w1 = (Ok p, w')
                      ∧ p ≤ q).
    { intros w1 Hsub. apply IH; [lia | set_solver | done |].
      intros p Hp. apply Hsettle. lia. }
    change (findAvailablePort_loop (S (S n)) probe port w)
      with ((s ← get_server;
             if decide (port ∈ usedPorts s)
             then findAvailablePort_loop (S n) probe (port + 1)
             else
               emit (Probe port);;
               free ← await (probe port);
               if free : bool then mret port
               else findAvailablePort_loop (S n) probe (port + 1)) w).
    run_monad. case_decide as Hused; [by apply Hstep|].
    destruct (Hsettle port ltac:(lia)) as [free Hfree_port].
    destruct (probe port) as [ints o] eqn:Hp. simpl in *. subst o. simpl.
    destruct free.
    + eexists _, _. split; [done | lia].
    + apply Hstep. simpl. apply deliver_ports.
Qed.

Lemma findAvailablePort_returns probe (q : Z) w :
  nextPort (server w) ≤ q →
  q ∉ usedPorts (server w) →
  outcome (probe q) = inl true →
  (∀ p, nextPort (server w) ≤ p < q → ∃ free, outcome (probe p) = inl free) →
  ∃ p w',
    findAvailablePort (S (Z.to_nat (q - nextPort (server w)))) probe w = (Ok p, w')
    ∧ p ≤ q.
Proof.
  intros Hle Hfree Hprobe Hsettle.
  destruct (findAvailablePort_loop_returns probe q
              (Z.to_nat (q - nextPort (server w))) (nextPort (server w)) w)
    as (p & w' & Hloop & Hp); [lia | done | done | done |].
  unfold findAvailablePort. run_monad. rewrite Hloop. simpl.
  by eexists _, _.
Qed.

(** *** The allocator cut at its suspension point *)

(** A call that runs alone through the steps of [fap_step] returns what
    [findAvailablePort] returns. *)
Lemma fap_run_loop probe fuel port w p w' :
  findAvailablePort_loop fuel probe port w = (Ok p, w') →
  ∃ n, fap_run n probe (FapTest port) w
       = (Ok p, {| server := with_nextPort (p + 1) (server w');
                   effects := effects w' |}).
Proof.
  revert port w. induction fuel as [|fuel IH]; intros port w; simpl; [done|].
  run_monad. case_decide as Hused.
  - intros [n Hn]%IH. exists (S n). simpl. run_monad.
    by rewrite decide_True.
  - destruct (probe port) as [ints [[]|e]] eqn:Hprobe; simpl; [| |done].
    + intros [= <- <-]. exists 2%nat. simpl. run_monad.
      rewrite decide_False by done. simpl. by rewrite Hprobe.
    + intros [n Hn]%IH. exists (S (S n)). simpl. run_monad.
      rewrite decide_False by done. simpl. by rewrite Hprobe.
Qed.

Lemma fap_run_findAvailablePort fuel probe w p w' :
  findAvailablePort fuel probe w = (Ok p, w') →
  ∃ n, (fap_start ≫= fap_run n probe) w = (Ok p, w').
Proof.
  unfold findAvailablePort, fap_start. run_monad.
  destruct (findAvailablePort_loop fuel probe (nextPort (server w)) w)
    as [[q|e|] w1] eqn:Hloop; [|done|done].
  intros [= <- <-]. by apply fap_run_loop in Hloop.
Qed.

Lemma start_alone_done n a env r w : start_alone n a env (StartDone r) w = (Ok r, w).
Proof. by destruct n. Qed.

Lemma start_alone_scan a env scriptPath n t w p w1 :
  fap_run n (isPortAvailable env) t w = (Ok p, w1) →
  start_alone (S n) a env (StartScan scriptPath t) w
  = startNodeProcess_spawn a env scriptPath p w1.
Proof.
  revert t w. induction n as [|n IH]; intros t w.
  - destruct t as [port|port|port]; simpl; [done|done|].
    intros [= <- <-]. unfold mbind, M_bind, mret, M_ret.
    destruct (startNodeProcess_spawn a env scriptPath port w) as [[r|e|] w2];
      simpl; [|done|done].
    by unfold mret, M_ret.
  - destruct t as [port|port|port].
    + change (fap_run (S n) (isPortAvailable env) (FapTest port) w)
        with ((fap_step (isPortAvailable env) (FapTest port)
               ≫= fap_run n (isPortAvailable env)) w).
      change (start_alone (S (S n)) a env (StartScan scriptPath (FapTest port)) w)
        with ((start_step a env (StartScan scriptPath (FapTest port))
               ≫= start_alone (S n) a env) w).
      unfold start_step, mbind, M_bind.
      destruct (fap_step (isPortAvailable env) (FapTest port) w)
        as [[t'|e|] w0]; [|done|done].
      unfold mret, M_ret. apply IH.
    + change (fap_run (S n) (isPortAvailable env) (FapAwait port) w)
        with ((fap_step (isPortAvailable env) (FapAwait port)
               ≫= fap_run n (isPortAvailable env)) w).
      change (start_alone (S (S n)) a env (StartScan scriptPath (FapAwait port)) w)
        with ((start_step a env (StartScan scriptPath (FapAwait port))
               ≫= start_alone (S n) a env) w).
      unfold start_step, mbind, M_bind.
      destruct (fap_step (isPortAvailable env) (FapAwait port) w)
        as [[t'|e|] w0]; [|done|done].
      unfold mret, M_ret. apply IH.
    + intros [= <- <-].
      change (start_alone (S (S n)) a env (StartScan scriptPath (FapReturned port)) w)
        with ((start_step a env (StartScan scriptPath (FapReturned port))
               ≫= start_alone (S n) a env) w).
      unfold start_step, mbind, M_bind, mret, M_ret.
      destruct (startNodeProcess_spawn a env scriptPath port w) as [[r|e|] w2];
        [|done|done].
      apply start_alone_done.
Qed.

(** A launch that runs alone through the steps of [start_step] does what
    [startNodeProcess] does. *)
Lemma start_alone_startNodeProcess fuel a env w r w' :
  startNodeProcess fuel a env w = (Ok r, w') →
  ∃ n, (start_begin a env ≫= start_alone n a env) w = (Ok r, w').
Proof.
  unfold startNodeProcess, start_begin.
  destruct (negb _).
  - intros [= <- <-]. by exists 0%nat.
  - unfold mbind at 1. unfold M_bind at 1.
    destruct (findAvailablePort fuel (isPortAvailable env) w)
      as [[p|e|] w1] eqn:Hfap; [|done|done].
    intros Hspawn. apply fap_run_findAvailablePort in Hfap as [n Hn].
    exists (S n).
    change (start_alone (S n) a env
              (StartScan (resolve env (or_else (cwd a) (process_cwd env)) (script a))
                 (FapTest (nextPort (server w)))) w
            = (Ok r, w')).
    rewrite <- Hspawn. apply start_alone_scan. exact Hn.
Qed.

(** C6, at the failing input.  Two launches overlap: the second call
    arrives while the first is suspended in its probe of port 9229, reads
    the same cursor and probes the same port.  The first call returns port
    9229, advances the cursor and registers process 4242 on it.  When the
    probe of the second call settles, the second call returns port 9229
    too, although 9229 is now in the used ports and held by process 4242,
    which is alive; the registry ends with two processes on port 9229. *)
Theorem overlapping_launches_share_a_port :
  overlapping_launches initial_world
  = (Ok (StartScan "/tmp/b.js" (FapAwait 9229)), first_launched_world) ∧
  9229 ∈ usedPorts (server first_launched_world) ∧
  nextPort (server first_launched_world) = 9230 ∧
  managedProcesses (server first_launched_world)
  = [(4242, ManagedProcess.mk 4242 9229 "node" ["--inspect-brk=9229"; "a.js"]
              0 "/tmp/a.js")] ∧
  start_resume 1 (start_args "b.js") (start_env true 4243)
    (StartScan "/tmp/b.js" (FapAwait 9229)) first_launched_world
  = (Ok (StartDone
           (ok_response "Started Node.js process with PID 4243 on debug port 9229")),
     both_launched_world) ∧
  managedProcesses (server both_launched_world)
  = [(4242, ManagedProcess.mk 4242 9229 "node" ["--inspect-brk=9229"; "a.js"]
              0 "/tmp/a.js");
     (4243, ManagedProcess.mk 4243 9229 "node" ["--inspect-brk=9229"; "b.js"]
              0 "/tmp/b.js")].
Proof.
  assert (Hin : 9229 ∈ ({[9229]} ∪ ∅ : gset Z)) by set_solver.
  split; [reflexivity|]. split; [exact Hin|]. repeat split; reflexivity.
Qed.

(** ** The registry along a run *)

Lemma delete_elem_of {V} (k : Z) (m : list (Z * V)) e :
  e ∈ JsMap.delete k m → e ∈ m.
Proof.
  induction m as [|[k1 v1] m IH]; simpl; [done|].
  destruct (decide (k = k1)); rewrite !elem_of_cons; naive_solver.
Qed.

Lemma delete_Forall {V} (P : Z * V → Prop) (k : Z) (m : list (Z * V)) :
  Forall P m → Forall P (JsMap.delete k m).
Proof.
  rewrite !Forall_forall. intros Hm e He. by apply Hm, (delete_elem_of k).
Qed.

Lemma delete_ports_NoDup k m : NoDup (ports_of m) → NoDup (ports_of (JsMap.delete k m)).
Proof.
  unfold ports_of, JsMap.values.
  induction m as [|[k1 v1] m IH]; simpl; [done|].
  rewrite NoDup_cons. intros [Hnin Hnd].
  destruct (decide (k = k1)); simpl; [done|].
  apply NoDup_cons. split; [|by apply IH].
  intros Hin. apply Hnin.
  apply list_elem_of_fmap in Hin as (p & -> & Hp).
  apply list_elem_of_fmap in Hp as (e & -> & He).
  apply list_elem_of_fmap. exists e.2. split; [done|].
  apply list_elem_of_fmap. exists e. split; [done|]. by apply delete_elem_of in He.
Qed.

(** The other entries do not have the port of the entry that is deleted. *)
Lemma delete_other_ports k process m e :
  NoDup (ports_of m) → JsMap.get k m = Some process →
  e ∈ JsMap.delete k m → ManagedProcess.port e.2 ≠ ManagedProcess.port process.
Proof.
  unfold ports_of, JsMap.values.
  induction m as [|[k1 v1] m IH]; simpl; [done|].
  rewrite NoDup_cons. intros [Hnin Hnd].
  destruct (decide (k = k1)) as [->|Hne].
  - intros [= <-] He Heq. apply Hnin.
    apply list_elem_of_fmap. exists e.2. split; [done|].
    apply list_elem_of_fmap. by exists e.
  - intros Hget [->|He]%elem_of_cons; [|by apply IH].
    simpl. intros Heq. apply Hnin.
    assert (Hin : (k, process) ∈ m).
    { clear -Hget. induction m as [|[k2 v2] m IH]; simpl in *; [done|].
      destruct (decide (k = k2)) as [->|?]; [injection Hget as ->; left|right; auto]. }
    apply list_elem_of_fmap. exists process. split; [done|].
    apply list_elem_of_fmap. by exists (k, process).
Qed.

Lemma set_elem_of {V} (k : Z) (v : V) (m : list (Z * V)) e :
  e ∈ JsMap.set k v m → e = (k, v) ∨ e ∈ m.
Proof.
  induction m as [|[k1 v1] m IH]; simpl.
  - rewrite list_elem_of_singleton. by left.
  - destruct (decide (k = k1)); rewrite !elem_of_cons; naive_solver.
Qed.

Lemma set_ports_NoDup k v m :
  ManagedProcess.port v ∉ ports_of m →
  NoDup (ports_of m) → NoDup (ports_of (JsMap.set k v m)).
Proof.
  unfold ports_of, JsMap.values.
  induction m as [|[k1 v1] m IH]; simpl.
  - intros _ _. apply NoDup_singleton.
  - rewrite not_elem_of_cons, NoDup_cons. intros [Hne Hnin] [Hnin1 Hnd].
    destruct (decide (k = k1)); simpl.
    + apply NoDup_cons. by split.
    + apply NoDup_cons. split; [|by apply IH].
      intros Hin.
      apply list_elem_of_fmap in Hin as (p & Hp & Hin).
      apply list_elem_of_fmap in Hin as (e & -> & He).
      apply set_elem_of in He as [->|He]; simpl in *; [congruence|].
      apply Hnin1. rewrite Hp.
      apply list_elem_of_fmap. exists e.2. split; [done|].
      apply list_elem_of_fmap. by exists e.
Qed.

Lemma ports_of_reserved s p :
  Forall (entry_ok s) (managedProcesses s) →
  p ∈ ports_of (managedProcesses s) → p ∈ usedPorts s ∧ p < nextPort s.
Proof.
  rewrite Forall_forall. intros Hok Hin.
  apply list_elem_of_fmap in Hin as (v & -> & Hin).
  apply list_elem_of_fmap in Hin as (e & -> & He).
  by destruct (Hok e He) as (_ & _ & ? & ?).
Qed.

Lemma registry_ok_initial : registry_ok initial_server.
Proof. repeat split; simpl; constructor. Qed.

Lemma registry_ok_session d s : registry_ok s → registry_ok (with_debugSession d s).
Proof. done. Qed.

Lemma registry_ok_cleared s : registry_ok s → registry_ok (cleared s).
Proof. intros _. repeat split; simpl; constructor. Qed.

Lemma registry_ok_delete pid s :
  registry_ok s →
  registry_ok (with_managedProcesses (JsMap.delete pid (managedProcesses s)) s).
Proof.
  intros (Hkeys & Hports & Hentries). split; [|split]; simpl.
  - by apply JsMapFacts.keys_delete_NoDup.
  - by apply delete_ports_NoDup.
  - by apply delete_Forall.
Qed.

Lemma registry_ok_exit pid s : registry_ok s → registry_ok (on_exit pid s).
Proof.
  intros (Hkeys & Hports & Hentries). unfold on_exit.
  case_decide; [done|].
  destruct (JsMap.get pid (managedProcesses s)) as [process|] eqn:Hget; [|done].
  assert (registry_ok
            (with_managedProcesses (JsMap.delete pid (managedProcesses s))
               (with_usedPorts (usedPorts s ∖ {[ManagedProcess.port process]}) s)))
    as Hok.
  { split; [|split]; simpl.
    - by apply JsMapFacts.keys_delete_NoDup.
    - by apply delete_ports_NoDup.
    - apply Forall_forall. intros e He.
      pose proof (delete_other_ports _ _ _ _ Hports Hget He) as Hother.
      apply delete_elem_of in He.
      rewrite Forall_forall in Hentries.
      destruct (Hentries e He) as (? & ? & ? & ?).
      repeat split; simpl; [done|done|set_solver|done]. }
  simpl. by case_decide.
Qed.

Lemma registry_ok_interrupt i s : registry_ok s → registry_ok (on_interrupt i s).
Proof. destruct i; simpl; [done | apply registry_ok_exit]. Qed.

Lemma registry_ok_deliver ints s : registry_ok s → registry_ok (deliver ints s).
Proof.
  unfold deliver. revert s. induction ints as [|i ints IH]; intros s Hs; simpl; [done|].
  by apply IH, registry_ok_interrupt.
Qed.

Lemma registry_ok_cursor s p :
  registry_ok s → nextPort s ≤ p → registry_ok (with_nextPort (p + 1) s).
Proof.
  intros (Hkeys & Hports & Hentries) Hle. split; [done|]. split; [done|].
  simpl. eapply Forall_impl; [exact Hentries|].
  intros e (? & ? & ? & ?). repeat split; simpl; [done|done|done|lia].
Qed.

Lemma registry_ok_registered a env pid p s :
  registry_ok s → nextPort s ≤ p → p ∉ usedPorts s → pid ≠ 0 →
  registry_ok (registered a env pid p s).
Proof.
  intros (Hkeys & Hports & Hentries) Hle Hfree Hpid. split; [|split]; simpl.
  - by apply JsMapFacts.keys_set_NoDup.
  - apply set_ports_NoDup; [|done]. simpl.
    intros Hin. by apply (ports_of_reserved s) in Hin as [? _].
  - apply Forall_forall. intros e [->|He]%set_elem_of.
    + repeat split; simpl; [done|set_solver|lia].
    + rewrite Forall_forall in Hentries.
      destruct (Hentries e He) as (? & ? & ? & ?).
      repeat split; simpl; [done|done|set_solver|lia].
Qed.

(** What a launch does to the server state: handlers run during the scan;
    then nothing more, or the cursor moves past the port found, or the
    child is registered on it as well. *)
Lemma findAvailablePort_loop_delivers fuel probe port w :
  ∃ ints, server (findAvailablePort_loop fuel probe port w).2
          = deliver ints (server w).
Proof.
  revert port w. induction fuel as [|fuel IH]; intros port w; simpl.
  - by exists [].
  - run_monad. case_decide; [apply IH|].
    destruct (probe port) as [ints [[]|e]]; simpl.
    + by exists ints.
    + match goal with
      | |- context [findAvailablePort_loop fuel probe ?q ?w1] =>
          destruct (IH q w1) as [ints' Hints']
      end.
      exists (ints ++ ints'). by rewrite Hints', deliver_app.
    + by exists ints.
Qed.

Lemma startNodeProcess_server fuel a env w :
  ∃ ints,
    let s1 := deliver ints (server w) in
    server (startNodeProcess fuel a env w).2 = s1 ∨
    ∃ p,
      nextPort s1 ≤ p ∧ (p ∉ usedPorts s1) ∧
      (server (startNodeProcess fuel a env w).2 = with_nextPort (p + 1) s1 ∨
       ∃ pid, pid ≠ 0 ∧ spawn env = inl (Some pid) ∧
              server (startNodeProcess fuel a env w).2 = registered a env pid p s1).
Proof.
  unfold startNodeProcess. destruct (negb _); [by exists []; left|].
  unfold findAvailablePort, startNodeProcess_spawn. run_monad.
  destruct (findAvailablePort_loop_delivers fuel (isPortAvailable env)
              (nextPort (server w)) w) as [ints Hints].
  exists ints.
  destruct (findAvailablePort_loop fuel (isPortAvailable env) (nextPort (server w)) w)
    as [[p|e|] w1] eqn:Hloop; simpl in *; [|by left|by left].
  right. exists p.
  apply findAvailablePort_loop_fresh in Hloop as (Hle & Hfree & Hnext).
  rewrite <- Hints. split; [lia|]. split; [done|].
  destruct (spawn env) as [[pid|]|e]; simpl; [|by left|by left].
  case_decide; simpl; [by left|]. right. by exists pid.
Qed.

Section server_invariant.
Context (J : Server → Prop).
Hypothesis J_interrupt : ∀ i s, J s → J (on_interrupt i s).
Hypothesis J_session : ∀ d s, J s → J (with_debugSession d s).
Hypothesis J_cursor : ∀ s p,
  J s → nextPort s ≤ p → p ∉ usedPorts s → J (with_nextPort (p + 1) s).
Hypothesis J_registered : ∀ a env pid p s,
  J s → nextPort s ≤ p → p ∉ usedPorts s → pid ≠ 0 → J (registered a env pid p s).
Hypothesis J_delete : ∀ pid s,
  J s → J (with_managedProcesses (JsMap.delete pid (managedProcesses s)) s).
Hypothesis J_cleared : ∀ s, J s → J (cleared s).

Lemma keeps_deliver ints s : J s → J (deliver ints s).
Proof.
  unfold deliver. revert s. induction ints as [|i ints IH]; intros s Hs; simpl; [done|].
  by apply IH, J_interrupt.
Qed.

Ltac keep := repeat first [apply keeps_deliver | apply J_session]; assumption.

Lemma keeps_startNodeProcess fuel a env : keeps J (startNodeProcess fuel a env).
Proof.
  intros w Hw.
  destruct (startNodeProcess_server fuel a env w) as [ints Hcases]. simpl in Hcases.
  assert (Hs1 : J (deliver ints (server w))) by keep.
  destruct Hcases as [->|(p & Hle & Hfree & [->|(pid & Hpid & _ & ->)])].
  - done.
  - by apply J_cursor.
  - by apply J_registered.
Qed.

Lemma keeps_killProcess pid kill : keeps J (killProcess pid kill).
Proof.
  intros w Hw. unfold killProcess. run_monad.
  destruct (JsMap.get pid (managedProcesses (server w))); [|done].
  destruct kill as [[]|e]; simpl; [by apply J_delete | done].
Qed.

Lemma keeps_attachDebugger port env : keeps J (attachDebugger port env).
Proof.
  intros w Hw. unfold attachDebugger.
  destruct env as [[ints1 o1] [ints2 o2] [ints3 o3] [ints4 o4] [ints5 o5] d1
                     [ints6 o6] d2].
  run_monad.
  destruct (DebugSession.client (debugSession (server w))) as [previous|]; simpl.
  - destruct o1 as [[]|?]; simpl; [|keep].
    destruct o2 as [c|?]; simpl; [|keep].
    destruct o3 as [[]|?]; simpl; [|keep].
    destruct o4 as [[]|?]; simpl; [|keep].
    destruct o5 as [[]|?], o6 as [[]|?]; simpl; keep.
  - destruct o2 as [c|?]; simpl; [|keep].
    destruct o3 as [[]|?]; simpl; [|keep].
    destruct o4 as [[]|?]; simpl; [|keep].
    destruct o5 as [[]|?], o6 as [[]|?]; simpl; keep.
Qed.

Lemma keeps_setBreakpoint file line condition reply :
  keeps J (setBreakpoint file line condition reply).
Proof.
  intros w Hw. unfold setBreakpoint. run_monad.
  destruct (no_session _); [done|].
  destruct (DebugSession.client _); simpl; [|done].
  destruct reply as [ints [[[|ch id]|]|e]]; simpl; try keep.
  destruct (DebugSession.breakpoints _); simpl; keep.
Qed.

Lemma keeps_stepDebug action reply : keeps J (stepDebug action reply).
Proof.
  intros w Hw. unfold stepDebug. run_monad.
  destruct (no_session _); [done|].
  destruct (DebugSession.client _); simpl; [|done].
  destruct reply as [ints [[]|e]]; simpl; keep.
Qed.

Lemma keeps_pauseExecution reply : keeps J (pauseExecution reply).
Proof.
  intros w Hw. unfold pauseExecution. run_monad.
  destruct (no_session _); [done|].
  destruct (DebugSession.client _); simpl; [|done].
  destruct reply as [ints [[]|e]]; simpl; keep.
Qed.

Lemma keeps_evaluateExpression expression reply :
  keeps J (evaluateExpression expression reply).
Proof.
  intros w Hw. unfold evaluateExpression. run_monad.
  destruct (no_session _); [done|].
  destruct (DebugSession.client _); simpl; [|done].
  destruct reply as [ints [[[exception|] r]|e]]; simpl; keep.
Qed.

Lemma keeps_cleanup close kill : keeps J (cleanup close kill).
Proof. intros w Hw. rewrite cleanup_server. by apply (J_cleared (server w)). Qed.

Lemma perform_keeps a w : J (server w) → J (server (perform a w)).
Proof.
  intros Hw. destruct a; simpl.
  - by apply keeps_startNodeProcess.
  - by apply keeps_killProcess.
  - by apply keeps_attachDebugger.
  - by apply keeps_setBreakpoint.
  - by apply keeps_stepDebug.
  - by apply keeps_pauseExecution.
  - by apply keeps_evaluateExpression.
  - by apply J_interrupt.
  - by apply keeps_cleanup.
Qed.

Lemma run_keeps actions w : J (server w) → J (server (run actions w)).
Proof.
  unfold run. revert w. induction actions as [|a actions IH]; intros w Hw; simpl; [done|].
  by apply IH, perform_keeps.
Qed.
End server_invariant.

Lemma run_registry_ok actions w :
  registry_ok (server w) → registry_ok (server (run actions w)).
Proof.
  apply run_keeps.
  - apply registry_ok_interrupt.
  - apply registry_ok_session.
  - intros s p Hs Hle _. by apply registry_ok_cursor.
  - apply registry_ok_registered.
  - apply registry_ok_delete.
  - apply registry_ok_cleared.
Qed.

Lemma reachable_registry_ok w : reachable w → registry_ok (server w).
Proof. intros [actions ->]. apply run_registry_ok, registry_ok_initial. Qed.

Lemma on_interrupt_cursor i s : nextPort (on_interrupt i s) = nextPort s.
Proof. apply on_interrupt_ports. Qed.

Lemma run_cursor actions w : nextPort (server w) ≤ nextPort (server (run actions w)).
Proof.
  apply (run_keeps (λ s, nextPort (server w) ≤ nextPort s)); simpl; try done.
  - intros i s. by rewrite on_interrupt_cursor.
  - intros s p. lia.
  - intros a env pid p s. lia.
Qed.

(** ** More on the port allocator *)

Lemma findAvailablePort_loop_first fuel probe port w p w' :
  findAvailablePort_loop fuel probe port w = (Ok p, w') →
  outcome (probe p) = inl true ∧
  ∀ q, port ≤ q < p →
       q ∈ usedPorts (server w) ∨ outcome (probe q) = inl false.
Proof.
  revert port w. induction fuel as [|fuel IH]; intros port w; simpl; [done|].
  run_monad. case_decide as Hused.
  - intros [Hfree Hskipped]%IH. split; [done|]. intros q Hq.
    destruct (decide (q = port)) as [->|]; [by left|]. apply Hskipped. lia.
  - destruct (probe port) as [ints [[]|e]] eqn:Hprobe; simpl; [| |done].
    + intros [= <- <-]. rewrite Hprobe. split; [done|]. intros q Hq. lia.
    + intros [Hfree Hskipped]%IH. split; [done|]. intros q Hq.
      destruct (decide (q = port)) as [->|]; [right; by rewrite Hprobe|].
      destruct (Hskipped q ltac:(lia)) as [Hin|?]; [left|by right].
      simpl in Hin. by apply (deliver_ports ints (server w)).
Qed.

Lemma findAvailablePort_loop_effects fuel probe port w :
  ∃ qs, effects (findAvailablePort_loop fuel probe port w).2
        = effects w ++ (Probe <$> qs).
Proof.
  revert port w. induction fuel as [|fuel IH]; intros port w; simpl.
  - exists []. by rewrite app_nil_r.
  - run_monad. case_decide; [apply IH|].
    destruct (probe port) as [ints [[]|e]]; simpl.
    + by exists [port].
    + match goal with
      | |- context [findAvailablePort_loop fuel probe ?q ?w1] =>
          destruct (IH q w1) as [qs Hqs]
      end.
      exists (port :: qs). rewrite Hqs. simpl. by rewrite <- app_assoc.
    + by exists [port].
Qed.

Lemma findAvailablePort_loop_throws fuel probe port w e w' :
  findAvailablePort_loop fuel probe port w = (Throw e, w') →
  ∃ q, port ≤ q ∧ outcome (probe q) = inr e.
Proof.
  revert port w. induction fuel as [|fuel IH]; intros port w; simpl; [done|].
  run_monad. case_decide as Hused.
  - intros (q & ? & ?)%IH. exists q. split; [lia | done].
  - destruct (probe port) as [ints [[]|e']] eqn:Hprobe; simpl; [done| |].
    + intros (q & ? & ?)%IH. exists q. split; [lia | done].
    + intros [= <- <-]. exists port. rewrite Hprobe. split; [lia | done].
Qed.

(** X1.  A call of the allocator that runs alone returns the first port at
    or after the cursor that is neither in the used ports nor found busy by
    the probe: the probe found the returned port free, every port it
    skipped was used or busy, the returned port is not in the used ports,
    and the cursor is left just after it. *)
Theorem allocator_returns_first_free_port
    (fuel : nat) (probe : Z → Await bool) (w w' : World) (p : Z) :
  findAvailablePort fuel probe w = (Ok p, w') →
  nextPort (server w) ≤ p ∧
  outcome (probe p) = inl true ∧
  (p ∉ usedPorts (server w')) ∧
  nextPort (server w') = p + 1 ∧
  ∀ q, nextPort (server w) ≤ q < p →
       q ∈ usedPorts (server w) ∨ outcome (probe q) = inl false.
Proof.
  intros Hfap.
  destruct (findAvailablePort_fresh _ _ _ _ _ Hfap) as (Hle & Hfree & Hnext).
  revert Hfap. unfold findAvailablePort. run_monad.
  destruct (findAvailablePort_loop fuel probe (nextPort (server w)) w)
    as [[q|e|] w1] eqn:Hloop; [|done|done].
  intros [= <- <-].
  by apply findAvailablePort_loop_first in Hloop as [? ?].
Qed.

Lemma allocator_returns_first_free_port_witness :
  ∃ w', findAvailablePort 3 (probe_with_busy 9230) launched_world = (Ok 9231, w') ∧
        nextPort (server w') = 9232 ∧
        (9230 ∈ usedPorts (server launched_world) ∨
         outcome (probe_with_busy 9230 9230) = inl false).
Proof.
  eexists. split; [reflexivity|].
  destruct (allocator_returns_first_free_port 3 (probe_with_busy 9230)
              launched_world _ 9231 eq_refl) as (_ & _ & _ & Hnext & Hskipped).
  split; [exact Hnext|]. apply Hskipped.
  change (nextPort (server launched_world)) with 9230. lia.
Defined.

(** X2.  The scan of the allocator ends: when some port at or after the
    cursor is not in the used ports and its probe finds it free, and the
    probes of the ports before it all settle, a call returns a port at or
    before that one. *)
Theorem allocator_scan_ends (probe : Z → Await bool) (q : Z) (w : World) :
  nextPort (server w) ≤ q →
  q ∉ usedPorts (server w) →
  outcome (probe q) = inl true →
  (∀ p, nextPort (server w) ≤ p < q → ∃ free, outcome (probe p) = inl free) →
  ∃ p w',
    findAvailablePort (S (Z.to_nat (q - nextPort (server w)))) probe w = (Ok p, w')
    ∧ nextPort (server w) ≤ p ≤ q.
Proof.
  intros Hle Hfree Hprobe Hsettle.
  destruct (findAvailablePort_returns probe q w Hle Hfree Hprobe Hsettle)
    as (p & w' & Hfap & Hp).
  exists p, w'. split; [done|].
  apply findAvailablePort_fresh in Hfap as (? & _ & _). lia.
Qed.

Lemma allocator_scan_ends_witness :
  ∃ p w',
    findAvailablePort (S (Z.to_nat (9231 - nextPort (server launched_world))))
      (probe_with_busy 9230) launched_world = (Ok p, w')
    ∧ nextPort (server launched_world) ≤ p ≤ 9231.
Proof.
  apply (allocator_scan_ends (probe_with_busy 9230) 9231 launched_world).
  - change (nextPort (server launched_world)) with 9230. lia.
  - change (usedPorts (server launched_world)) with ({[9229]} ∪ ∅ : gset Z).
    set_solver.
  - reflexivity.
  - intros p _. by eexists.
Defined.

(** X3.  [startNodeProcess] never throws unless a port probe is rejected:
    the scan is outside its [try], so the rejection escapes as an exception
    instead of an error result.  In that case nothing was spawned: the only
    outside calls made are probes, and the server state was touched only by
    the handlers that ran during the probes. *)
Theorem launch_throws_only_on_rejected_probe
    (fuel : nat) (a : StartArgs) (env : StartEnv) (w w' : World) (e : string) :
  startNodeProcess fuel a env w = (Throw e, w') →
  (∃ q, nextPort (server w) ≤ q ∧ outcome (isPortAvailable env q) = inr e) ∧
  (∃ ints, server w' = deliver ints (server w)) ∧
  (∃ qs, effects w' = effects w ++ (Probe <$> qs)).
Proof.
  unfold startNodeProcess. destruct (negb _); [done|].
  unfold findAvailablePort, startNodeProcess_spawn. run_monad.
  destruct (findAvailablePort_loop_delivers fuel (isPortAvailable env)
              (nextPort (server w)) w) as [ints Hints].
  destruct (findAvailablePort_loop_effects fuel (isPortAvailable env)
              (nextPort (server w)) w) as [qs Hqs].
  destruct (findAvailablePort_loop fuel (isPortAvailable env) (nextPort (server w)) w)
    as [[p|e'|] w1] eqn:Hloop; simpl in *; [| |done].
  - destruct (spawn env) as [[pid|]|e']; simpl; [|done|done].
    by case_decide.
  - intros [= <- <-].
    split; [by eapply findAvailablePort_loop_throws|].
    split; [by exists ints | by exists qs].
Qed.

Lemma launch_throws_only_on_rejected_probe_witness :
  ∃ q, nextPort (server initial_world) ≤ q ∧
       outcome (isPortAvailable
                  (start_env_probe_rejected "RangeError: port out of range") q)
       = inr "RangeError: port out of range".
Proof.
  exact (proj1
           (launch_throws_only_on_rejected_probe 1 (start_args "a.js")
              (start_env_probe_rejected "RangeError: port out of range")
              initial_world
              {| server := initial_server; effects := [Probe 9229] |}
              "RangeError: port out of range" eq_refl)).
Defined.

(** ** More on launches *)

(** X4.  A launch whose script exists, whose scan returns a port and whose
    child gets a pid registers the child: it answers with the pid and the
    port, spawns [node] with [--inspect-brk=<port>] before the script and
    its arguments, stores the entry under the pid, adds the port to the
    used ports, and leaves the entries of the other pids as they were. *)
Theorem launch_registers_child
    (fuel : nat) (a : StartArgs) (env : StartEnv) (w w1 : World) (p pid : Z) :
  existsSync env (resolve env (or_else (cwd a) (process_cwd env)) (script a)) = true →
  findAvailablePort fuel (isPortAvailable env) w = (Ok p, w1) →
  spawn env = inl (Some pid) →
  pid ≠ 0 →
  let nodeArgs :=
    ("--inspect-brk=" +:+ pretty p) :: script a :: default [] (args a) in
  ∃ w',
    startNodeProcess fuel a env w
    = (Ok (ok_response ("Started Node.js process with PID " +:+ pretty pid
                        +:+ " on debug port " +:+ pretty p)), w') ∧
    effects w' = effects w1 ++ [Spawn nodeArgs (or_else (cwd a) (process_cwd env))] ∧
    JsMap.get pid (managedProcesses (server w'))
    = Some (ManagedProcess.mk pid p "node" nodeArgs (now env)
              (resolve env (or_else (cwd a) (process_cwd env)) (script a))) ∧
    usedPorts (server w') = {[p]} ∪ usedPorts (server w1) ∧
    nextPort (server w') = p + 1 ∧
    debugSession (server w') = debugSession (server w1) ∧
    ∀ pid', pid' ≠ pid →
      JsMap.get pid' (managedProcesses (server w'))
      = JsMap.get pid' (managedProcesses (server w1)).
Proof.
  intros Hexists Hfap Hspawn Hpid nodeArgs.
  pose proof (findAvailablePort_fresh _ _ _ _ _ Hfap) as (_ & _ & Hnext).
  unfold startNodeProcess. rewrite Hexists. simpl.
  unfold mbind at 1. unfold M_bind at 1. rewrite Hfap.
  unfold startNodeProcess_spawn. run_monad. rewrite Hspawn. simpl.
  rewrite decide_False by done. simpl.
  eexists. split; [reflexivity|]. simpl.
  split; [done|]. split; [apply JsMapFacts.get_set_eq|].
  split; [done|]. split; [done|]. split; [done|].
  intros pid' Hne. by apply JsMapFacts.get_set_ne.
Qed.

Lemma launch_registers_child_witness :
  ∃ w',
    startNodeProcess 1 (start_args "a.js") (start_env true 4242) initial_world
    = (Ok (ok_response "Started Node.js process with PID 4242 on debug port 9229"),
       w') ∧
    JsMap.get 4242 (managedProcesses (server w'))
    = Some (ManagedProcess.mk 4242 9229 "node" ["--inspect-brk=9229"; "a.js"] 0
              "/tmp/a.js").
Proof.
  destruct (launch_registers_child 1 (start_args "a.js") (start_env true 4242)
              initial_world
              (findAvailablePort 1 (isPortAvailable (start_env true 4242))
                 initial_world).2
              9229 4242 eq_refl eq_refl eq_refl ltac:(lia))
    as (w' & Hstart & _ & Hget & _).
  exists w'. split; [exact Hstart | exact Hget].
Defined.

(** X5.  A launch whose child cannot be started (the spawn throws, or the
    child has no pid) answers "Error starting process" as an error and
    registers nothing, but the port found for it stays consumed: it is not
    added to the used ports, and the cursor is already past it. *)
Theorem failed_launch_consumes_port
    (fuel : nat) (a : StartArgs) (env : StartEnv) (w w1 : World) (p : Z) :
  existsSync env (resolve env (or_else (cwd a) (process_cwd env)) (script a)) = true →
  findAvailablePort fuel (isPortAvailable env) w = (Ok p, w1) →
  (∃ e, spawn env = inr e) ∨ spawn env = inl None ∨ spawn env = inl (Some 0) →
  startNodeProcess fuel a env w
  = (Ok (error_response
           ("Error starting process: "
            +:+ match spawn env with
                | inr e => e
                | inl _ => "Error: Failed to start process"
                end)),
     {| server := server w1;
        effects := effects w1
                   ++ [Spawn (("--inspect-brk=" +:+ pretty p) :: script a
                              :: default [] (args a))
                         (or_else (cwd a) (process_cwd env))] |}) ∧
  nextPort (server w1) = p + 1 ∧
  p ∉ usedPorts (server w1).
Proof.
  intros Hexists Hfap Hspawn.
  pose proof (findAvailablePort_fresh _ _ _ _ _ Hfap) as (_ & Hfree & Hnext).
  split; [|done].
  unfold startNodeProcess. rewrite Hexists. simpl.
  unfold mbind at 1. unfold M_bind at 1. rewrite Hfap.
  unfold startNodeProcess_spawn. run_monad.
  destruct Hspawn as [[e ->]|[->| ->]]; reflexivity.
Qed.

Lemma failed_launch_consumes_port_witness :
  ∃ w',
    startNodeProcess 1 (start_args "a.js") start_env_no_pid initial_world
    = (Ok (error_response "Error starting process: Error: Failed to start process"),
       w') ∧
    managedProcesses (server w') = [] ∧
    nextPort (server w') = 9230.
Proof.
  destruct (failed_launch_consumes_port 1 (start_args "a.js") start_env_no_pid
              initial_world
              (findAvailablePort 1 (isPortAvailable start_env_no_pid)
                 initial_world).2
              9229 eq_refl eq_refl (or_intror (or_introl eq_refl)))
    as (Hstart & Hnext & _).
  eexists. split; [exact Hstart|]. split; [reflexivity | exact Hnext].
Defined.

(** ** The registry in the states the server reaches *)

Lemma get_elem_of {V} (k : Z) (v : V) (m : list (Z * V)) :
  JsMap.get k m = Some v → (k, v) ∈ m.
Proof.
  induction m as [|[k1 v1] m IH]; simpl; [done|].
  destruct (decide (k = k1)) as [->|?]; [intros [= ->]; left | right; auto].
Qed.

(** X6.  Along every run of whole tool calls and handlers from the initial
    state, the registry stays in order: each pid is stored once, under the
    pid of its own process, which is not zero; no two registered processes
    share a port; and every registered port is in the used ports and
    before the cursor. *)
Theorem registry_in_order_along_runs (actions : list Action) :
  registry_ok (server (run actions initial_world)).
Proof. apply run_registry_ok, registry_ok_initial. Qed.

(** X7.  In a state the server reaches, a call of the allocator that runs
    alone returns a port that no registered process holds. *)
Theorem allocator_avoids_registered_ports
    (actions : list Action) (fuel : nat) (probe : Z → Await bool)
    (p : Z) (w' : World) :
  findAvailablePort fuel probe (run actions initial_world) = (Ok p, w') →
  p ∉ ports_of (managedProcesses (server w')).
Proof.
  set (w := run actions initial_world).
  assert (Hw : registry_ok (server w)) by apply run_registry_ok, registry_ok_initial.
  unfold findAvailablePort. run_monad.
  destruct (findAvailablePort_loop_delivers fuel probe (nextPort (server w)) w)
    as [ints Hints].
  destruct (findAvailablePort_loop fuel probe (nextPort (server w)) w)
    as [[q|e|] w1] eqn:Hloop; [|done|done].
  intros [= <- <-]. simpl in *.
  apply findAvailablePort_loop_fresh in Hloop as (Hle & _ & Hnext).
  assert (Hw1 : registry_ok (server w1)) by (rewrite Hints; by apply registry_ok_deliver).
  destruct Hw1 as (_ & _ & Hentries).
  intros Hin. apply (ports_of_reserved (server w1)) in Hin as [_ Hlt]; [lia | done].
Qed.

Lemma allocator_avoids_registered_ports_witness :
  9230 ∉ ports_of
           (managedProcesses
              (server (findAvailablePort 1 (λ _, resolved true)
                         (run [start_node_process 1 (start_args "a.js")
                                 (start_env true 4242)] initial_world)).2)).
Proof.
  apply (allocator_avoids_registered_ports
           [start_node_process 1 (start_args "a.js") (start_env true 4242)]
           1 (λ _, resolved true) 9230).
  reflexivity.
Defined.

(** X8.  Ports are never issued twice by calls that do not overlap: a port
    returned by the allocator is smaller than every port it returns later,
    whatever tool calls, exits and shutdowns happen in between. *)
Theorem ports_never_reissued
    (fuel1 fuel2 : nat) (probe1 probe2 : Z → Await bool)
    (actions : list Action) (w w1 w2 : World) (p1 p2 : Z) :
  findAvailablePort fuel1 probe1 w = (Ok p1, w1) →
  findAvailablePort fuel2 probe2 (run actions w1) = (Ok p2, w2) →
  p1 < p2.
Proof.
  intros (_ & _ & Hnext)%findAvailablePort_fresh (Hle & _)%findAvailablePort_fresh.
  pose proof (run_cursor actions w1). lia.
Qed.

Lemma ports_never_reissued_witness :
  let probe := λ _ : Z, resolved true in
  let w1 := (findAvailablePort 1 probe initial_world).2 in
  let later := run [shutdown (inl ()) (λ _, inl ())] w1 in
  findAvailablePort 1 probe initial_world = (Ok 9229, w1) ∧
  findAvailablePort 1 probe later = (Ok 9230, (findAvailablePort 1 probe later).2) ∧
  9229 < 9230.
Proof.
  intros probe w1 later.
  split; [reflexivity|]. split; [reflexivity|].
  apply (ports_never_reissued 1 1 probe probe
           [shutdown (inl ()) (λ _, inl ())] initial_world w1
           (findAvailablePort 1 probe later).2 9229 9230);
    reflexivity.
Defined.

(** X9.  In a state the server reaches, the exit of a registered process
    removes its entry and no other, releases its port and no other, and
    leaves the cursor alone; afterwards no registered process holds that
    port. *)
Theorem exit_removes_own_entry_and_port
    (actions : list Action) (pid : Z) (process : ManagedProcess.t) :
  let s := server (run actions initial_world) in
  JsMap.get pid (managedProcesses s) = Some process →
  let s' := on_exit pid s in
  JsMap.get pid (managedProcesses s') = None ∧
  S (length (managedProcesses s')) = length (managedProcesses s) ∧
  (∀ pid', pid' ≠ pid →
     JsMap.get pid' (managedProcesses s') = JsMap.get pid' (managedProcesses s)) ∧
  usedPorts s' = usedPorts s ∖ {[ManagedProcess.port process]} ∧
  (ManagedProcess.port process ∉ ports_of (managedProcesses s')) ∧
  nextPort s' = nextPort s.
Proof.
  intros s Hget s'.
  destruct (run_registry_ok actions initial_world registry_ok_initial)
    as (Hkeys & Hports & Hentries).
  fold s in Hkeys, Hports, Hentries.
  assert (Hpid : pid ≠ 0).
  { rewrite Forall_forall in Hentries.
    by destruct (Hentries _ (get_elem_of _ _ _ Hget)) as (_ & ? & _). }
  destruct (on_exit_registered pid process s Hpid Hget)
    as (Hregistry & Hlength & Hused & Hnext).
  fold s' in Hregistry, Hlength, Hused, Hnext.
  split; [rewrite Hregistry; by apply JsMapFacts.get_delete_eq|].
  split; [done|].
  split; [intros pid' Hne; rewrite Hregistry; by apply JsMapFacts.get_delete_ne|].
  split; [done|]. split; [|done].
  rewrite Hregistry. intros Hin.
  apply list_elem_of_fmap in Hin as (v & Hv & Hin).
  apply list_elem_of_fmap in Hin as (e & -> & He).
  by apply (delete_other_ports pid process (managedProcesses s) e).
Qed.

Lemma exit_removes_own_entry_and_port_witness :
  let s := server (run [start_node_process 1 (start_args "a.js")
                          (start_env true 4242)] initial_world) in
  JsMap.get 4242 (managedProcesses (on_exit 4242 s)) = None ∧
  usedPorts (on_exit 4242 s) = usedPorts s ∖ {[9229]}.
Proof.
  intros s.
  destruct (exit_removes_own_entry_and_port
              [start_node_process 1 (start_args "a.js") (start_env true 4242)]
              4242
              (ManagedProcess.mk 4242 9229 "node" ["--inspect-brk=9229"; "a.js"] 0
                 "/tmp/a.js")
              eq_refl) as (Hget & _ & _ & Hused & _).
  split; [exact Hget | exact Hused].
Defined.

(** X10.  In a state the server reaches, the exit observer is idempotent:
    run a second time for the same pid it changes nothing. *)
Theorem exit_observer_idempotent (actions : list Action) (pid : Z) :
  let s := server (run actions initial_world) in
  on_exit pid (on_exit pid s) = on_exit pid s.
Proof.
  intros s.
  destruct (run_registry_ok actions initial_world registry_ok_initial)
    as (Hkeys & _ & _).
  fold s in Hkeys.
  destruct (decide (pid = 0)) as [->|Hpid]; [done|].
  destruct (JsMap.get pid (managedProcesses s)) as [process|] eqn:Hget.
  - apply on_exit_unregistered.
    destruct (on_exit_registered pid process s Hpid Hget) as (-> & _).
    by apply JsMapFacts.get_delete_eq.
  - by rewrite !(on_exit_unregistered pid s Hget).
Qed.

(** X11.  In a state the server reaches, after [kill_process] has killed a
    registered process its entry is gone but its port is still in the used
    ports, held by no registered process, and the exit observer of the
    killed process then changes nothing. *)
Theorem killed_port_stays_in_used_ports
    (actions : list Action) (pid : Z) (process : ManagedProcess.t) :
  let w := run actions initial_world in
  JsMap.get pid (managedProcesses (server w)) = Some process →
  let w' := (killProcess pid (inl ()) w).2 in
  JsMap.get pid (managedProcesses (server w')) = None ∧
  ManagedProcess.port process ∈ usedPorts (server w') ∧
  (ManagedProcess.port process ∉ ports_of (managedProcesses (server w'))) ∧
  on_exit pid (server w') = server w'.
Proof.
  intros w Hget w'.
  destruct (run_registry_ok actions initial_world registry_ok_initial)
    as (Hkeys & Hports & Hentries).
  fold w in Hkeys, Hports, Hentries.
  unfold w'. rewrite (killProcess_removes_entry w pid process Hget). simpl.
  assert (Hgone : JsMap.get pid (JsMap.delete pid (managedProcesses (server w))) = None)
    by by apply JsMapFacts.get_delete_eq.
  split; [done|]. split.
  { rewrite Forall_forall in Hentries.
    by destruct (Hentries _ (get_elem_of _ _ _ Hget)) as (_ & _ & ? & _). }
  split; [|by apply on_exit_unregistered].
  intros Hin.
  apply list_elem_of_fmap in Hin as (v & Hv & Hin).
  apply list_elem_of_fmap in Hin as (e & -> & He).
  by apply (delete_other_ports pid process (managedProcesses (server w)) e).
Qed.

Lemma killed_port_stays_in_used_ports_witness :
  let w := run [start_node_process 1 (start_args "a.js") (start_env true 4242)]
             initial_world in
  let w' := (killProcess 4242 (inl ()) w).2 in
  9229 ∈ usedPorts (server w') ∧ on_exit 4242 (server w') = server w'.
Proof.
  intros w w'.
  destruct (killed_port_stays_in_used_ports
              [start_node_process 1 (start_args "a.js") (start_env true 4242)]
              4242
              (ManagedProcess.mk 4242 9229 "node" ["--inspect-brk=9229"; "a.js"] 0
                 "/tmp/a.js")
              eq_refl) as (_ & Hused & _ & Hexit).
  split; [exact Hused | exact Hexit].
Defined.

(** ** Shutdown *)

Lemma kill_all_effects ps kill w :
  kill_all ps kill w
  = (Ok (), {| server := server w;
               effects := effects w
                          ++ (Kill <$> (ManagedProcess.pid <$> JsMap.values ps)) |}).
Proof.
  revert w. induction ps as [|[pid mp] ps IH]; intros w; simpl.
  - rewrite app_nil_r. by destruct w.
  - run_monad. destruct (kill pid) as [[]|e]; simpl;
      rewrite IH; simpl; by rewrite <- app_assoc.
Qed.

(** X12.  [cleanup] never fails, whatever the close and the kills do: it
    closes the client when there is one, then sends a kill to every
    registered process in the order of their registration, and leaves an
    empty registry, no used port and the initial session.  The port cursor
    is the one thing it does not reset. *)
Theorem cleanup_resets_all_but_cursor
    (close : unit + string) (kill : Z → unit + string) (w : World) :
  cleanup close kill w
  = (Ok (),
     {| server := cleared (server w);
        effects :=
          effects w
          ++ match DebugSession.client (debugSession (server w)) with
             | Some c => [Close c]
             | None => []
             end
          ++ (Kill <$> (ManagedProcess.pid <$> JsMap.values (managedProcesses (server w)))) |}).
Proof.
  unfold cleanup. run_monad.
  destruct (DebugSession.client (debugSession (server w))) as [c|]; simpl.
  - destruct close as [[]|e]; simpl; rewrite kill_all_effects; simpl;
      by rewrite <- app_assoc.
  - by rewrite kill_all_effects.
Qed.

(** ** The session in the states the server reaches *)

Lemma session_complete_fresh d :
  DebugSession.connected d = false → DebugSession.client d = None →
  session_complete d.
Proof.
  intros Hc Hcl. split.
  - rewrite Hc, Hcl. split; [done | by intros [? ?]].
  - by rewrite Hc.
Qed.

Lemma session_complete_event e d : session_complete d → session_complete (on_event e d).
Proof.
  intros [Hiff Hfields]. destruct e as [callFrames| |id]; (split; [done|]); simpl;
    intros Hc; destruct (Hfields Hc) as (? & ? & ? & ?); eauto.
Qed.

(** X13.  Along every run, the session object is complete whenever it says
    it is connected: [connected] is true exactly when a client handle is
    present, and then the port, the breakpoint table, the call stack and
    the pause flag are all defined.  So the two tests of the guard of the
    debug operations agree, and the breakpoint table exists at the moment
    the guard lets a call through. *)
Theorem connected_session_is_complete (actions : list Action) :
  session_complete (debugSession (server (run actions initial_world))).
Proof.
  apply (run_invariant session_complete any_interrupt).
  - by apply session_complete_fresh.
  - by apply session_complete_fresh.
  - intros p c. split; [done|]. intros _. simpl. eauto.
  - intros e d _. apply session_complete_event.
  - intros d table k v [Hiff Hfields] _. split; [done|]. simpl.
    intros Hc. destruct (Hfields Hc) as (? & ? & ? & ?). eauto.
  - apply Forall_forall. intros a _. apply lets_in_any.
  - by apply session_complete_fresh.
Qed.

(** ** More on attach *)

Lemma attachDebugger_returns port env w :
  ∃ r, (attachDebugger port env w).1 = Ok r.
Proof.
  unfold attachDebugger.
  destruct env as [[ints1 o1] [ints2 o2] [ints3 o3] [ints4 o4] [ints5 o5] d1
                     [ints6 o6] d2].
  run_monad.
  destruct (DebugSession.client (debugSession (server w))) as [previous|]; simpl;
    destruct o1 as [[]|?], o2 as [c|?], o3 as [[]|?], o4 as [[]|?],
             o5 as [[]|?], o6 as [[]|?]; simpl; by eexists.
Qed.

(** X14.  [attachDebugger] always returns a result, and the result is a
    success exactly when the required steps succeed: the close of the
    previous client when there is one, the connection, [Debugger.enable]
    and [Runtime.enable].  The pause request and the run-if-waiting
    request are best effort: whether they fail does not matter. *)
Theorem attach_succeeds_iff_required_steps_do
    (port : Z) (env : AttachEnv) (w : World) :
  ∃ r,
    (attachDebugger port env w).1 = Ok r ∧
    (isError r = false ↔ attach_required_ok (debugSession (server w)) env).
Proof.
  unfold attachDebugger, attach_required_ok.
  destruct env as [[ints1 o1] [ints2 o2] [ints3 o3] [ints4 o4] [ints5 o5] d1
                     [ints6 o6] d2].
  run_monad.
  destruct (DebugSession.client (debugSession (server w))) as [previous|]; simpl;
    destruct o1 as [[]|?], o2 as [c|?], o3 as [[]|?], o4 as [[]|?],
             o5 as [[]|?], o6 as [[]|?]; simpl;
    eexists; (split; [reflexivity|]); simpl; naive_solver.
Qed.

(** X15.  The outside calls of a successful attach come in a fixed order:
    the close of the previous client when there is one, the connection,
    the subscription of the event handlers, the two enables, the pause
    request, a delay of 100 ms unless the pause request failed, the
    run-if-waiting request, and a delay of 200 ms.  In particular the
    handlers are subscribed before either domain is enabled. *)
Theorem attach_handshake_order
    (port : Z) (env : AttachEnv) (w w' : World) (r : Response) :
  attachDebugger port env w = (Ok r, w') →
  isError r = false →
  ∃ c,
    outcome (connectReply env) = inl c ∧
    effects w'
    = effects w
      ++ handshake_calls (DebugSession.client (debugSession (server w))) port c env.
Proof.
  unfold attachDebugger, handshake_calls.
  destruct env as [[ints1 o1] [ints2 o2] [ints3 o3] [ints4 o4] [ints5 o5] d1
                     [ints6 o6] d2].
  run_monad.
  destruct (DebugSession.client (debugSession (server w))) as [previous|]; simpl.
  - destruct o1 as [[]|e]; simpl; [|by intros [= <- <-]].
    destruct o2 as [c|e]; simpl; [|by intros [= <- <-]].
    destruct o3 as [[]|e]; simpl; [|by intros [= <- <-]].
    destruct o4 as [[]|e]; simpl; [|by intros [= <- <-]].
    destruct o5 as [[]|e5], o6 as [[]|e6]; simpl; intros [= <- <-] _;
      exists c; (split; [done|]); simpl; by rewrite <- !app_assoc.
  - destruct o2 as [c|e]; simpl; [|by intros [= <- <-]].
    destruct o3 as [[]|e]; simpl; [|by intros [= <- <-]].
    destruct o4 as [[]|e]; simpl; [|by intros [= <- <-]].
    destruct o5 as [[]|e5], o6 as [[]|e6]; simpl; intros [= <- <-] _;
      exists c; (split; [done|]); simpl; by rewrite <- !app_assoc.
Qed.

Lemma attach_handshake_order_witness :
  effects (attachDebugger 9229 (attach_env_best_effort_fails 2%nat)
             attached_world).2
  = effects attached_world
    ++ [Close 1%nat; Connect 9229; Subscribe 2%nat; Call 2%nat DebuggerEnable;
        Call 2%nat RuntimeEnable; Call 2%nat DebuggerPause;
        Call 2%nat RuntimeRunIfWaitingForDebugger; Sleep 200].
Proof.
  destruct (attach_handshake_order 9229 (attach_env_best_effort_fails 2%nat)
              attached_world
              (attachDebugger 9229 (attach_env_best_effort_fails 2%nat)
                 attached_world).2
              (ok_response "Successfully attached debugger to port 9229")
              eq_refl eq_refl) as (c & Hc & Hlog).
  injection Hc as <-. exact Hlog.
Defined.

Lemma deliver_events_frame ints s :
  Forall is_event ints →
  DebugSession.connected (debugSession (deliver ints s))
  = DebugSession.connected (debugSession s) ∧
  DebugSession.port (debugSession (deliver ints s))
  = DebugSession.port (debugSession s) ∧
  DebugSession.client (debugSession (deliver ints s))
  = DebugSession.client (debugSession s) ∧
  DebugSession.breakpoints (debugSession (deliver ints s))
  = DebugSession.breakpoints (debugSession s) ∧
  managedProcesses (deliver ints s) = managedProcesses s ∧
  usedPorts (deliver ints s) = usedPorts s.
Proof.
  unfold deliver. intros Hints. revert s.
  induction Hints as [|i ints Hi _ IH]; intros s; simpl; [done|].
  destruct i as [e|pid]; [|done].
  destruct (IH (on_interrupt (Event e) s)) as (-> & -> & -> & -> & -> & ->).
  by destruct e.
Qed.

(** X16.  An attach that fails never replaces the session object: when
    only protocol events were handled while it ran, the session still has
    the connection flag, the port, the client handle and the breakpoint
    table it had before, even though a previous client has been closed by
    then; the registry and the used ports are untouched. *)
Theorem failed_attach_keeps_session
    (port : Z) (env : AttachEnv) (w w' : World) (r : Response) :
  attachDebugger port env w = (Ok r, w') →
  isError r = true →
  lets_in is_event (attach_debugger port env) →
  DebugSession.connected (debugSession (server w'))
  = DebugSession.connected (debugSession (server w)) ∧
  DebugSession.port (debugSession (server w'))
  = DebugSession.port (debugSession (server w)) ∧
  DebugSession.client (debugSession (server w'))
  = DebugSession.client (debugSession (server w)) ∧
  DebugSession.breakpoints (debugSession (server w'))
  = DebugSession.breakpoints (debugSession (server w)) ∧
  managedProcesses (server w') = managedProcesses (server w) ∧
  usedPorts (server w') = usedPorts (server w).
Proof.
  unfold attachDebugger.
  destruct env as [[ints1 o1] [ints2 o2] [ints3 o3] [ints4 o4] [ints5 o5] d1
                     [ints6 o6] d2].
  simpl. intros Hattach Herror (H1 & H2 & H3 & H4 & _).
  revert Hattach. run_monad.
  assert (Hframe : ∀ ints s, Forall is_event ints →
            DebugSession.connected (debugSession (deliver ints s))
            = DebugSession.connected (debugSession s) ∧
            DebugSession.port (debugSession (deliver ints s))
            = DebugSession.port (debugSession s) ∧
            DebugSession.client (debugSession (deliver ints s))
            = DebugSession.client (debugSession s) ∧
            DebugSession.breakpoints (debugSession (deliver ints s))
            = DebugSession.breakpoints (debugSession s) ∧
            managedProcesses (deliver ints s) = managedProcesses s ∧
            usedPorts (deliver ints s) = usedPorts s)
    by apply deliver_events_frame.
  destruct (DebugSession.client (debugSession (server w))) as [previous|] eqn:Hclient;
    simpl.
  - destruct o1 as [[]|e]; simpl.
    2:{ intros [= <- <-]. simpl. rewrite <- Hclient. by apply Hframe. }
    destruct o2 as [c|e]; simpl.
    2:{ intros [= <- <-]. simpl.
        destruct (Hframe ints2 (deliver ints1 (server w)) H2)
          as (-> & -> & -> & -> & -> & ->).
        rewrite <- Hclient. by apply Hframe. }
    destruct o3 as [[]|e]; simpl.
    2:{ intros [= <- <-]. simpl.
        destruct (Hframe ints3 (deliver ints2 (deliver ints1 (server w))) H3)
          as (-> & -> & -> & -> & -> & ->).
        destruct (Hframe ints2 (deliver ints1 (server w)) H2)
          as (-> & -> & -> & -> & -> & ->).
        rewrite <- Hclient. by apply Hframe. }
    destruct o4 as [[]|e]; simpl.
    2:{ intros [= <- <-]. simpl.
        destruct (Hframe ints4
                    (deliver ints3 (deliver ints2 (deliver ints1 (server w)))) H4)
          as (-> & -> & -> & -> & -> & ->).
        destruct (Hframe ints3 (deliver ints2 (deliver ints1 (server w))) H3)
          as (-> & -> & -> & -> & -> & ->).
        destruct (Hframe ints2 (deliver ints1 (server w)) H2)
          as (-> & -> & -> & -> & -> & ->).
        rewrite <- Hclient. by apply Hframe. }
    destruct o5 as [[]|e5], o6 as [[]|e6]; simpl; intros [= <- <-];
      simpl in Herror; discriminate.
  - destruct o2 as [c|e]; simpl.
    2:{ intros [= <- <-]. simpl. rewrite <- Hclient. by apply Hframe. }
    destruct o3 as [[]|e]; simpl.
    2:{ intros [= <- <-]. simpl.
        destruct (Hframe ints3 (deliver ints2 (server w)) H3)
          as (-> & -> & -> & -> & -> & ->).
        rewrite <- Hclient. by apply Hframe. }
    destruct o4 as [[]|e]; simpl.
    2:{ intros [= <- <-]. simpl.
        destruct (Hframe ints4 (deliver ints3 (deliver ints2 (server w))) H4)
          as (-> & -> & -> & -> & -> & ->).
        destruct (Hframe ints3 (deliver ints2 (server w)) H3)
          as (-> & -> & -> & -> & -> & ->).
        rewrite <- Hclient. by apply Hframe. }
    destruct o5 as [[]|e5], o6 as [[]|e6]; simpl; intros [= <- <-];
      simpl in Herror; discriminate.
Qed.

Lemma failed_attach_keeps_session_witness :
  let w' := (attachDebugger 9230 (attach_env_refused "Error: connect ECONNREFUSED")
               breakpoint_world).2 in
  DebugSession.connected (debugSession (server w')) = true ∧
  DebugSession.client (debugSession (server w')) = Some 1%nat ∧
  DebugSession.breakpoints (debugSession (server w'))
  = Some [("file:///tmp/a.js:5", "1:0")].
Proof.
  intros w'.
  assert (Hlets : lets_in is_event
                    (attach_debugger 9230
                       (attach_env_refused "Error: connect ECONNREFUSED"))).
  { simpl. repeat split; constructor. }
  destruct (failed_attach_keeps_session 9230
              (attach_env_refused "Error: connect ECONNREFUSED")
              breakpoint_world w'
              (error_response
                 "Error attaching debugger: Error: connect ECONNREFUSED")
              eq_refl eq_refl Hlets) as (Hconnected & _ & Hclient & Htable & _).
  split; [exact Hconnected|]. split; [exact Hclient | exact Htable].
Defined.

(** ** More on breakpoints *)

Lemma occurs_app_colon a s : occurs ":" (a +:+ String ":" s) = true.
Proof.
  induction a as [|c a IH]; simpl; [done|].
  by destruct (decide (":"%char = c)).
Qed.

Lemma pretty_N_char_no_colon x : pretty_N_char x ≠ ":"%char.
Proof. unfold pretty_N_char. by repeat case_match. Qed.

Lemma pretty_N_go_no_colon x s :
  occurs ":" s = false → occurs ":" (pretty_N_go x s) = false.
Proof.
  revert s. induction (N.lt_wf_0 x) as [x _ IH]; intros s Hs.
  assert (x = 0 ∨ 0 < x)%N as [->|?] by lia.
  - by rewrite pretty_N_go_0.
  - rewrite pretty_N_go_step by done. apply IH.
    { by apply N.div_lt. }
    simpl. rewrite decide_False; [done|].
    intros Heq. by apply (pretty_N_char_no_colon (x `mod` 10)%N).
Qed.

Lemma pretty_N_no_colon (x : N) : occurs ":" (pretty x) = false.
Proof.
  unfold pretty, pretty_N. case_decide; [done|]. by apply pretty_N_go_no_colon.
Qed.

Lemma pretty_Z_no_colon (x : Z) : occurs ":" (pretty x) = false.
Proof.
  destruct x as [|x|x]; [done| |].
  - apply (pretty_N_no_colon (Npos x)).
  - change (pretty (Zneg x)) with ("-" +:+ pretty (Npos x)). simpl.
    apply (pretty_N_no_colon (Npos x)).
Qed.

Lemma append_colon_inj a a' s s' :
  occurs ":" s = false → occurs ":" s' = false →
  a +:+ String ":" s = a' +:+ String ":" s' → a = a' ∧ s = s'.
Proof.
  intros Hs Hs'. revert a'. induction a as [|c a IH]; intros [|c' a']; simpl.
  - by intros [= ->].
  - intros [= <- ->]. by rewrite occurs_app_colon in Hs.
  - intros [= -> <-]. by rewrite occurs_app_colon in Hs'.
  - intros [= -> Heq]. by destruct (IH a' Heq) as [-> ->].
Qed.

Lemma breakpointKey_inj file line file' line' :
  breakpointKey file line = breakpointKey file' line' →
  file = file' ∧ line = line'.
Proof.
  unfold breakpointKey. intros Heq.
  apply append_colon_inj in Heq as [-> Hline]; [|apply pretty_Z_no_colon..].
  split; [done|]. by apply (inj pretty).
Qed.

(** X17.  The key under which a breakpoint is stored determines its file
    and its line: two breakpoints have the same key only when they are on
    the same line of the same file, whatever colons the file name
    contains. *)
Theorem breakpoint_key_determines_location
    (file file' : string) (line line' : Z) :
  breakpointKey file line = breakpointKey file' line' →
  file = file' ∧ line = line'.
Proof. apply breakpointKey_inj. Qed.

Lemma breakpoint_key_determines_location_witness :
  "file:///tmp/a.js" = "file:///tmp/a.js" ∧ 12 = 12.
Proof.
  exact (breakpoint_key_determines_location "file:///tmp/a.js" "file:///tmp/a.js"
           12 12 eq_refl).
Defined.

Lemma table_set_length (k v : string) (m : list (string * string)) :
  (length m ≤ length (JsMap.set k v m) ≤ S (length m))%nat.
Proof.
  induction m as [|[k1 v1] m IH]; simpl; [lia|].
  destruct (decide (k = k1)); simpl; lia.
Qed.

(** X18.  A successful [set_breakpoint] on an attached session asks the
    protocol once, for the zero-based line (one less than the line given)
    of the file with the condition as given; it stores the identifier
    that the protocol returned under the key of that file and line, and
    the identifiers stored for every other file or line are unchanged.
    The table grows by at most one entry. *)
Theorem set_breakpoint_keeps_other_locations
    (file : string) (line : Z) (condition : option string)
    (reply : Await (option string)) (w w' : World) (r : Response) :
  setBreakpoint file line condition reply w = (Ok r, w') →
  isError r = false →
  ∃ c id table table',
    DebugSession.client (debugSession (server w)) = Some c ∧
    outcome reply = inl (Some id) ∧
    effects w'
    = effects w ++ [Call c (DebuggerSetBreakpointByUrl (line - 1) file condition)] ∧
    DebugSession.breakpoints (debugSession (deliver (during reply) (server w)))
    = Some table ∧
    DebugSession.breakpoints (debugSession (server w')) = Some table' ∧
    JsMap.get (breakpointKey file line) table' = Some id ∧
    (∀ file' line',
       (file', line') ≠ (file, line) →
       JsMap.get (breakpointKey file' line') table'
       = JsMap.get (breakpointKey file' line') table) ∧
    (length table ≤ length table' ≤ S (length table))%nat.
Proof.
  unfold setBreakpoint. run_monad.
  destruct (no_session _); [by intros [= <- <-]|].
  destruct (DebugSession.client _) as [c|]; simpl; [|by intros [= <- <-]].
  destruct reply as [ints [breakpointId|e]]; simpl; [|by intros [= <- <-]].
  destruct breakpointId as [id|]; simpl; [|by intros [= <- <-]].
  destruct id as [|ch id]; simpl; [by intros [= <- <-]|].
  destruct (DebugSession.breakpoints _) as [table|] eqn:Htable; simpl;
    [|by intros [= <- <-]].
  intros [= <- <-] _.
  exists c, (String ch id), table,
    (JsMap.set (breakpointKey file line) (String ch id) table).
  split; [done|]. split; [done|]. split; [done|]. split; [done|]. split; [done|].
  split; [apply JsMapFacts.get_set_eq|]. split; [|apply table_set_length].
  intros file' line' Hne. apply JsMapFacts.get_set_ne.
  intros Heq. apply breakpointKey_inj in Heq as [-> ->]. by apply Hne.
Qed.

Lemma set_breakpoint_keeps_other_locations_witness :
  JsMap.get (breakpointKey "file:///tmp/a.js" 9)
    (default []
       (DebugSession.breakpoints
          (debugSession
             (server (setBreakpoint "file:///tmp/a.js" 9 None
                        (resolved (Some "2:0")) breakpoint_world).2))))
  = Some "2:0" ∧
  JsMap.get (breakpointKey "file:///tmp/a.js" 5)
    (default []
       (DebugSession.breakpoints
          (debugSession
             (server (setBreakpoint "file:///tmp/a.js" 9 None
                        (resolved (Some "2:0")) breakpoint_world).2))))
  = Some "1:0".
Proof.
  destruct (set_breakpoint_keeps_other_locations "file:///tmp/a.js" 9 None
              (resolved (Some "2:0")) breakpoint_world
              (setBreakpoint "file:///tmp/a.js" 9 None
                 (resolved (Some "2:0")) breakpoint_world).2
              (ok_response "Set breakpoint at file:///tmp/a.js:9 - ID: 2:0")
              eq_refl eq_refl)
    as (c & id & table & table' & _ & Hid & _ & Htable & Htable' & Hstored & Hother
        & _).
  injection Hid as <-.
  split; [by rewrite Htable'|].
  rewrite Htable'. simpl.
  rewrite (Hother "file:///tmp/a.js" 5) by (intros [= ?]; lia).
  injection Htable as <-. reflexivity.
Defined.

(** X19.  [set_breakpoint] always returns a result, and when the result is
    an error (no session, a rejected request, no identifier in the reply,
    or a session dropped while the request was pending) it has written
    nothing: the server state is as it was, up to the handlers that ran
    while the request was pending. *)
Theorem failed_set_breakpoint_writes_nothing
    (file : string) (line : Z) (condition : option string)
    (reply : Await (option string)) (w : World) :
  ∃ r w',
    setBreakpoint file line condition reply w = (Ok r, w') ∧
    (isError r = true →
     server w' = server w ∨ server w' = deliver (during reply) (server w)).
Proof.
  unfold setBreakpoint. run_monad.
  destruct (no_session _); [eexists _, _; split; [done|]; by left|].
  destruct (DebugSession.client _) as [c|]; simpl;
    [|eexists _, _; split; [done|]; by left].
  destruct reply as [ints [[[|ch id]|]|e]]; simpl;
    try (eexists _, _; split; [done|]; by right).
  destruct (DebugSession.breakpoints _) as [table|]; simpl.
  - eexists _, _. split; [done|]. simpl. discriminate.
  - eexists _, _. split; [done|]. by right.
Qed.

(** ** Step and pause *)

(** X20.  On an attached session, [step_debug] and [pause_execution] only
    ask: each sends the one protocol request of its action and never
    writes the server state itself, so the pause flag and the call stack
    change only through the handlers that run while the request is
    pending.  A rejected request is reported as an error result. *)
Theorem step_and_pause_only_ask
    (action : StepAction.t) (reply : Await unit) (w : World) (c : ClientId) :
  DebugSession.connected (debugSession (server w)) = true →
  DebugSession.client (debugSession (server w)) = Some c →
  stepDebug action reply w
  = (Ok match outcome reply with
        | inl _ =>
            ok_response ("Performed debug action: " +:+ StepAction.to_string action)
        | inr e => error_response ("Error performing debug action: " +:+ e)
        end,
     {| server := deliver (during reply) (server w);
        effects := effects w ++ [Call c (StepAction.request action)] |}) ∧
  pauseExecution reply w
  = (Ok match outcome reply with
        | inl _ => ok_response "Execution paused successfully"
        | inr e => error_response ("Error pausing execution: " +:+ e)
        end,
     {| server := deliver (during reply) (server w);
        effects := effects w ++ [Call c DebuggerPause] |}).
Proof.
  intros Hconnected Hclient. unfold stepDebug, pauseExecution. run_monad.
  unfold no_session. rewrite Hconnected, Hclient. simpl.
  destruct reply as [ints [[]|e]]; done.
Qed.

Lemma step_and_pause_only_ask_witness :
  (stepDebug StepAction.continue (resolved ()) attached_world).2
  = {| server := server attached_world;
       effects := effects attached_world ++ [Call 1%nat DebuggerResume] |}.
Proof.
  exact (f_equal snd
           (proj1 (step_and_pause_only_ask StepAction.continue (resolved ())
                     attached_world 1%nat eq_refl eq_refl))).
Defined.

(** ** The protocol handlers *)

(** X21.  The three protocol handlers write only the pause flag, the call
    stack and the current execution context: whatever events arrive, the
    connection flag, the port, the client handle and the breakpoint table
    of the session, the registry, the used ports and the port cursor stay
    as they are; and the current execution context is the one of the last
    context-creation event. *)
Theorem handlers_write_only_pause_state_and_context
    (evs : list CdpEvent) (s : Server) :
  let s' := deliver (Event <$> evs) s in
  DebugSession.connected (debugSession s') = DebugSession.connected (debugSession s) ∧
  DebugSession.port (debugSession s') = DebugSession.port (debugSession s) ∧
  DebugSession.client (debugSession s') = DebugSession.client (debugSession s) ∧
  DebugSession.breakpoints (debugSession s')
  = DebugSession.breakpoints (debugSession s) ∧
  DebugSession.currentExecutionContext (debugSession s')
  = last_context (DebugSession.currentExecutionContext (debugSession s)) evs ∧
  managedProcesses s' = managedProcesses s ∧
  usedPorts s' = usedPorts s ∧
  nextPort s' = nextPort s.
Proof.
  simpl. rewrite deliver_events. simpl.
  destruct (on_events_frame evs (debugSession s)) as (-> & -> & -> & ->).
  by rewrite on_events_context.
Qed.

(** ** The execution context that evaluate passes *)









(** ** The breakpoint table: what discards it and what keeps it *)

(** C9 (amended).  The breakpoint table does not survive a re-attach, nor
    the exit of the debugged process while that process is still
    registered: after a successful [attach_debugger] that no other tool
    call overlaps, the session holds a new empty table (or none, when the
    session was dropped again during the handshake), whatever it held
    before; and the exit of a registered process whose port is the
    session's port replaces the session by [{ connected: false }], which
    has no table.  The table is left as it is by the protocol events, by
    the exit of a process on another port, and by the exit of a process
    that is not registered any more: in particular, once [kill_process]
    has removed the debugged process, its exit leaves the session as it
    was, connected and with its table. *)
Theorem breakpoint_table_discarded_or_kept :
  (∀ port env w r w',
     attachDebugger port env w = (Ok r, w') → isError r = false →
     DebugSession.breakpoints (debugSession (server w')) = Some [] ∨
     DebugSession.breakpoints (debugSession (server w')) = None) ∧
  (∀ pid process s,
     pid ≠ 0 →
     JsMap.get pid (managedProcesses s) = Some process →
     DebugSession.port (debugSession s) = Some (ManagedProcess.port process) →
     debugSession (on_exit pid s) = DebugSession.disconnected ∧
     DebugSession.breakpoints (debugSession (on_exit pid s)) = None) ∧
  (∀ pid s,
     (∀ process,
        JsMap.get pid (managedProcesses s) = Some process →
        DebugSession.port (debugSession s) ≠ Some (ManagedProcess.port process)) →
     debugSession (on_exit pid s) = debugSession s) ∧
  (∀ pid s,
     JsMap.get pid (managedProcesses s) = None → on_exit pid s = s) ∧
  (∀ actions pid process,
     let w := run actions initial_world in
     JsMap.get pid (managedProcesses (server w)) = Some process →
     let w' := (killProcess pid (inl ()) w).2 in
     debugSession (server w') = debugSession (server w) ∧
     on_exit pid (server w') = server w') ∧
  (∀ e d, DebugSession.breakpoints (on_event e d) = DebugSession.breakpoints d).
Proof.
  split; [|split; [|split; [|split; [|split]]]].
  - intros port env w r w' Hattach Hok.
    destruct (attachDebugger_success _ _ _ _ _ Hattach Hok)
      as (c & s0 & _ & _ & ->).
    apply fresh_table_deliver. by left.
  - intros pid process s Hpid Hget Hport.
    by rewrite (on_exit_bound pid process s).
  - apply on_exit_unbound.
  - apply on_exit_unregistered.
  - intros actions pid process w Hget w'.
    destruct (run_registry_ok actions initial_world registry_ok_initial)
      as (Hkeys & _ & _).
    fold w in Hkeys.
    unfold w'. rewrite (killProcess_removes_entry w pid process Hget). simpl.
    split; [done|]. apply on_exit_unregistered. simpl.
    by apply JsMapFacts.get_delete_eq.
  - intros e d. by destruct e.
Qed.

Lemma breakpoint_table_discarded_or_kept_witness :
  (DebugSession.breakpoints
     (debugSession
        (server (attachDebugger 9229 (attach_env 2%nat []) breakpoint_world).2))
   = Some [] ∨
   DebugSession.breakpoints
     (debugSession
        (server (attachDebugger 9229 (attach_env 2%nat []) breakpoint_world).2))
   = None) ∧
  DebugSession.breakpoints (debugSession (on_exit 4242 (server breakpoint_world)))
  = None ∧
  (let w' := (killProcess 4242 (inl ()) breakpoint_world).2 in
   DebugSession.breakpoints (debugSession (on_exit 4242 (server w')))
   = Some [("file:///tmp/a.js:5", "1:0")]).
Proof.
  split; [|split].
  - apply (proj1 breakpoint_table_discarded_or_kept 9229
             (attach_env 2%nat []) breakpoint_world
             (ok_response "Successfully attached debugger to port 9229"));
      reflexivity.
  - apply (proj1 (proj2 breakpoint_table_discarded_or_kept) 4242
             (ManagedProcess.mk 4242 9229 "node" ["--inspect-brk=9229"; "a.js"]
                0 "/tmp/a.js")
             (server breakpoint_world)).
    + done.
    + reflexivity.
    + reflexivity.
  - intros w'.
    destruct (proj1 (proj2 (proj2 (proj2 (proj2 breakpoint_table_discarded_or_kept))))
                [start_node_process 1 (start_args "a.js") (start_env true 4242);
                 attach_debugger 9229 (attach_env 1%nat []);
                 set_breakpoint "file:///tmp/a.js" 5 None (resolved (Some "1:0"))]
                4242
                (ManagedProcess.mk 4242 9229 "node" ["--inspect-brk=9229"; "a.js"]
                   0 "/tmp/a.js")
                eq_refl) as [Hsession Hexit].
    change (on_exit 4242 (server w') = server w') in Hexit.
    rewrite Hexit.
    change (debugSession (server w') = debugSession (server breakpoint_world))
      in Hsession.
    rewrite Hsession. reflexivity.
Defined.
